(** * The market-data update pipeline of scripts/update_market_data.py

    A shallow embedding of the price fetch, the alignment of the per-ticker
    series, the net-value computation, the history merge and the live-weight
    computation, together with the Alpha Vantage helper it calls
    (public/price/alpha_vantage.py).

    Calendar dates are proleptic day numbers ([Z]); [date - timedelta(days=7)]
    is a subtraction.  Python floats are IEEE 754 binary64 numbers, embedded
    as Rocq's primitive floats.  Files are modelled by the typed rows they
    hold. *)

From Stdlib Require Import ZArith Lia Floats.
From stdpp Require Import base option list strings gmap sorting.

Open Scope Z_scope.

(** ** Numbers *)

(** The arithmetic the pipeline uses on cell values.  [num_isnan] is the test
    behind pandas' [skipna] and [fillna]; [num_round4] is [Series.round(4)];
    [num_le0] is the comparison [x <= 0]. *)
Class Numeric (F : Type) := {
  num_zero : F;
  num_one : F;
  num_hundred : F;
  num_add : F → F → F;
  num_sub : F → F → F;
  num_mul : F → F → F;
  num_div : F → F → F;
  num_isnan : F → bool;
  num_le0 : F → bool;
  num_round4 : F → F
}.

Module Binary64.

(** [numpy.rint] on a binary64 number: round to the nearest integer, ties to
    even.  Below 2^52 adding and subtracting 2^52 rounds to an integer in
    the default rounding mode; from 2^52 on every number is an integer. *)
Definition two52 : float := 4503599627370496%float.

Definition rint_pos (z : float) : float :=
  if (z <? two52)%float then ((z + two52) - two52)%float else z.

Definition rint (y : float) : float :=
  if (y =? 0)%float then y
  else if (y <? 0)%float then (- rint_pos (- y))%float
  else rint_pos y.

(** [numpy.round(x, 4)]: scale by 10^4, [rint], scale back. *)
Definition round4 (x : float) : float :=
  (rint (x * 10000) / 10000)%float.


End Binary64.

#[export] Instance float_numeric : Numeric float := {|
  num_zero := 0%float;
  num_one := 1%float;
  num_hundred := 100%float;
  num_add := PrimFloat.add;
  num_sub := PrimFloat.sub;
  num_mul := PrimFloat.mul;
  num_div := PrimFloat.div;
  num_isnan := PrimFloat.is_nan;
  num_le0 := fun x => (x <=? 0)%float;
  num_round4 := Binary64.round4
|}.

(** ** Dates *)

(** [start_date <= d <= end_date]. *)
Definition in_window (start_date end_date d : Z) : Prop :=
  start_date ≤ d ∧ d ≤ end_date.

#[export] Instance in_window_dec a b d : Decision (in_window a b d) :=
  and_dec (Z_le_dec a d) (Z_le_dec d b).

(** ** Outcomes of a computation *)

(** Why a run stops without finishing: the [SystemExit]s of the script, and
    the exceptions it does not catch. *)
Inductive error :=
  | MissingApiKey
  | MissingMetaFile
  | MissingRebalanceDate
  | BaseFileNotFound
  | BaseColumnsMissing
  | BaseWeightsNotPositive
  | NoDataReturned (ticker : string)
  | NoDataInWindow (ticker : string)
  | NoOverlappingDays
  | BeforeRebalance
  | Uncaught (exception : string).

(** [Val a]: the computation went on with [a]; [Ret]: [main] executed its
    [return] statement; [Abort e]: the process ended with [e]. *)
Inductive result (A : Type) :=
  | Val (a : A)
  | Ret
  | Abort (e : error).
Arguments Val {A} a.
Arguments Ret {A}.
Arguments Abort {A} e.

#[export] Instance result_ret : MRet result := fun A a => Val a.
#[export] Instance result_bind : MBind result := fun A B f r =>
  match r with
  | Val a => f a
  | Ret => Ret
  | Abort e => Abort e
  end.

Definition is_fetch_failure (e : error) : bool :=
  match e with
  | NoDataReturned _ | NoDataInWindow _ => true
  | _ => false
  end.

(** ** Text *)

(** [str.strip()] on text taken as ASCII: the characters Python takes for
    white space there are the codes 9 to 13 and 28 to 32. *)
Definition is_py_space (c : Ascii.ascii) : bool :=
  let n := Ascii.nat_of_ascii c in
  ((9 <=? n)%nat && (n <=? 13)%nat) || ((28 <=? n)%nat && (n <=? 32)%nat).

Fixpoint lstrip (s : string) : string :=
  match s with
  | String c s' => if is_py_space c then lstrip s' else s
  | EmptyString => EmptyString
  end.

Definition strip (s : string) : string :=
  String.rev (lstrip (String.rev (lstrip s))).

(** ** The data the pipeline handles *)

Section Pipeline.
Context {F : Type} `{!Numeric F}.

(** One entry of "Time Series (Daily)". *)
Record bar := Bar {
  bar_open : F;
  bar_high : F;
  bar_low : F;
  bar_close : F;
  bar_volume : Z;
  bar_adjclose : F
}.

(** A value of the time series, as the loop of [get_daily_historic_data]
    finds it: a bar whose seven fields convert ([float] six times, [int]
    once), or one at which a conversion raises [exception] ([KeyError] for a
    field it lacks, [ValueError] for text that is no number, [TypeError]
    when it is no JSON object). *)
Inductive series_bar :=
  | ParsedBar (x : bar)
  | BadBar (exception : string).

(** What one request to the provider comes back with: no response or an
    HTTP error status; a body that is no JSON; a JSON body without
    "Time Series (Daily)", with the "Note" and the "Error Message" it may
    carry; a body whose "Time Series (Daily)" is no JSON object (a list, a
    text, a number); a time series with a key that is no date; or the time
    series, a dict from dates to bars.  The keys that are dates are taken to
    be written as the provider writes them, YYYY-MM-DD with leading zeros,
    so that their order as strings is their order as dates.  Of a series
    with a key that is no date, [data] holds the bars under the keys that
    are dates, and [position] tells where the first other key stands in the
    sorted keys: after the dates before [position], and before the dates
    from [position] on. *)
Inductive response :=
  | HttpFailure
  | BodyNotJson
  | NoTimeSeries (note error_message : option string)
  | SeriesNotObject
  | SeriesBadKey (data : gmap Z series_bar) (position : Z)
  | TimeSeries (data : gmap Z series_bar).

(** A row of portfolio_base.csv, and the table after [load_base_portfolio]
    added [weight_frac]. *)
Record base_row := BaseRow {
  ticker : string;
  stock_name : option string;
  weight : F;
  reason : option string
}.

Inductive base_csv :=
  | BaseWithoutColumns
  | BaseRows (table : list base_row).

Record base_entry := BaseEntry {
  entry_row : base_row;
  weight_frac : F
}.

(** A row of net_values.csv. *)
Record nv_row := NvRow {
  nv_date : Z;
  net_value : F;
  pct_change : F
}.

(** A date-indexed price table: one column per ticker, one row per date. *)
Record price_frame := PriceFrame {
  columns : list string;
  rows : list (Z * list F)
}.

(** Everything a run reads or writes: the environment variable and the
    files it reads, the two records it writes, the clock, the provider, and
    the number of requests sent so far (the provider may answer the same
    ticker differently at different requests). *)
Record world := World {
  env_api_key : option string;
  api_key_file : option string;
  meta_file : option (option Z);
  base_file : option base_csv;
  net_values_file : option (list nv_row);
  legacy_file : option (list nv_row);
  portfolio_file : option (list base_row);
  clock : Z;
  provider : nat → string → response;
  requests : nat
}.

Definition set_net_values (df : list nv_row) (w : world) : world :=
  World (env_api_key w) (api_key_file w) (meta_file w) (base_file w)
        (Some df) (legacy_file w) (portfolio_file w)
        (clock w) (provider w) (requests w).

Definition set_portfolio (df : list base_row) (w : world) : world :=
  World (env_api_key w) (api_key_file w) (meta_file w) (base_file w)
        (net_values_file w) (legacy_file w) (Some df)
        (clock w) (provider w) (requests w).

Definition with_requests (n : nat) (w : world) : world :=
  World (env_api_key w) (api_key_file w) (meta_file w) (base_file w)
        (net_values_file w) (legacy_file w) (portfolio_file w)
        (clock w) (provider w) n.

Definition count_request (w : world) : world :=
  with_requests (S (requests w)) w.

(** ** Computations that read and write the world *)

Definition M (A : Type) : Type := world → result A * world.

#[export] Instance M_ret : MRet M := fun A a w => (Val a, w).
#[export] Instance M_bind : MBind M := fun A B f m w =>
  match m w with
  | (Val a, w') => f a w'
  | (Ret, w') => (Ret, w')
  | (Abort e, w') => (Abort e, w')
  end.

Definition lift {A} (r : result A) : M A := fun w => (r, w).
Definition abort {A} (e : error) : M A := lift (Abort e).
Definition early_return {A} : M A := lift Ret.
Definition ask {A} (f : world → A) : M A := fun w => (Val (f w), w).
Definition modify (f : world → world) : M unit := fun w => (Val tt, f w).


(** ** public/price/alpha_vantage.py *)

(** The request of [get_daily_historic_data]: the answer of the provider to
    the next request, whatever it is. *)
Definition http_get (ticker : string) : M response := fun w =>
  (Val (provider w (requests w) ticker), count_request w).

(** The loop of lines 93-109, which is outside the [try] block: the keys are
    visited in ascending order, those outside [start_date, end_date] are
    skipped, and the bar of each of the others is converted and appended to
    [prices]; a conversion that raises ends the call with its exception. *)
Fixpoint read_bars (data : gmap Z series_bar) (start_date end_date : Z)
    (keys : list Z) (prices : list (Z * bar)) : result (list (Z * bar)) :=
  match keys with
  | [] => Val prices
  | d :: keys' =>
      if (d <? start_date) || (end_date <? d)
      then read_bars data start_date end_date keys' prices
      else
        match data !! d with
        | Some (ParsedBar x) =>
            read_bars data start_date end_date keys' (prices ++ [(d, x)])
        | Some (BadBar exception) => Abort (Uncaught exception)
        | None => Abort (Uncaught "KeyError")
        end
  end.

(** The rows built from a response.  Every failure inside the [try] block
    ends in the [except] clause, which returns the empty table.  A time
    series that is no object has no [keys].  At a key that is no date
    [strptime] raises, whatever the window; the loop has then read the keys
    that stand before it. *)
Definition historic_rows (r : response) (start_date end_date : Z)
    : result (list (Z * bar)) :=
  match r with
  | TimeSeries data =>
      read_bars data start_date end_date
                (merge_sort Z.le (elements (dom data))) []
  | SeriesBadKey data position =>
      match read_bars data start_date end_date
              (filter (fun d => d < position)
                      (merge_sort Z.le (elements (dom data)))) [] with
      | Val _ => Abort (Uncaught "ValueError: time data does not match format '%Y-%m-%d'")
      | r => r
      end
  | SeriesNotObject =>
      Abort (Uncaught "AttributeError: object has no attribute 'keys'")
  | HttpFailure | BodyNotJson | NoTimeSeries _ _ => Val []
  end.

Definition get_daily_historic_data (ticker : string)
    (start_date end_date : Z) : M (list (Z * bar)) :=
  r ← http_get ticker;
  lift (historic_rows r start_date end_date).

(** ** scripts/update_market_data.py *)

(** The key is the environment variable, stripped, when it is set and not
    empty; else the content of the key file, stripped. *)
Definition load_api_key : M string := fun w =>
  match env_api_key w, api_key_file w with
  | Some key, file =>
      if decide (key = "") then
        match file with
        | Some key' => (Val (strip key'), w)
        | None => (Abort MissingApiKey, w)
        end
      else (Val (strip key), w)
  | None, Some key' => (Val (strip key'), w)
  | None, None => (Abort MissingApiKey, w)
  end.

(** The meta file may be absent, or lack a [rebalance_date]; a date it has is
    taken as parsed. *)
Definition load_rebalance_date : M Z := fun w =>
  match meta_file w with
  | None => (Abort MissingMetaFile, w)
  | Some None => (Abort MissingRebalanceDate, w)
  | Some (Some d) => (Val d, w)
  end.

(** *** Sums

    pandas sums with numpy's [add.reduce], after it has put 0 for every
    value that is not a number ([skipna]).  Along an array that lies
    contiguous in memory numpy sums pairwise: fewer than 8 values are added
    from left to right; up to 128 values are added in 8 lanes (value [i]
    into lane [i mod 8]), the lanes are added up as a tree, and the values
    left over after the last full block of 8 are added one by one; a longer
    array is cut in two, at a multiple of 8, and the sums of the two parts
    are added. *)
Definition add_all (acc : F) (l : list F) : F := foldl num_add acc l.

Fixpoint add_blocks (blocks : nat) (lanes l : list F) : list F * list F :=
  match blocks with
  | O => (lanes, l)
  | S blocks' =>
      add_blocks blocks' (zip_with num_add lanes (take 8 l)) (drop 8 l)
  end.

Definition add_lanes (lanes : list F) : F :=
  match lanes with
  | [r0; r1; r2; r3; r4; r5; r6; r7] =>
      num_add (num_add (num_add r0 r1) (num_add r2 r3))
              (num_add (num_add r4 r5) (num_add r6 r7))
  | _ => num_zero
  end.

(** For 8 to 128 values. *)
Definition unrolled_sum (l : list F) : F :=
  let '(lanes, rest) :=
    add_blocks (length l / 8 - 1) (take 8 l) (drop 8 l) in
  add_all (add_lanes lanes) rest.

(** [fuel] bounds the depth of the cuts; the length of the array is more than
    enough, see [pairwise_sum_unfold]. *)
Fixpoint pairwise_sum_aux (fuel : nat) (l : list F) : F :=
  let n := length l in
  if (n <? 8)%nat then add_all num_zero l
  else if (n <=? 128)%nat then unrolled_sum l
  else
    match fuel with
    | O => unrolled_sum l
    | S fuel' =>
        let n2 := (n / 2 - (n / 2) mod 8)%nat in
        num_add (pairwise_sum_aux fuel' (take n2 l))
                (pairwise_sum_aux fuel' (drop n2 l))
    end.

Definition pairwise_sum (l : list F) : F := pairwise_sum_aux (length l) l.

Definition skipna (l : list F) : list F :=
  (fun x => if num_isnan x then num_zero else x) <$> l.

(** [Series.sum()]: the reduction starts from 0 and adds the pairwise sum of
    the values. *)
Definition series_sum (l : list F) : F :=
  num_add num_zero (pairwise_sum (skipna l)).

(** [DataFrame.sum(axis=1)], the sums of the rows of a table.  pandas hands
    numpy the table stored column after column, so that a row does not lie
    contiguous: numpy then starts every sum from 0 and adds one column after
    the other.  When some value of the table is not a number, pandas first
    copies the table, row after row, to put the zeros in; the rows of the
    copy lie contiguous, as the one row of a table of one row does, and are
    summed as a Series is. *)
Definition has_nan (table : list (list F)) : bool :=
  existsb (existsb num_isnan) table.

Definition sum_rows (table : list (list F)) : list F :=
  if has_nan table || (length table =? 1)%nat
  then series_sum <$> table
  else add_all num_zero <$> table.

Definition load_base_portfolio : M (list base_entry) := fun w =>
  match base_file w with
  | None => (Abort BaseFileNotFound, w)
  | Some BaseWithoutColumns => (Abort BaseColumnsMissing, w)
  | Some (BaseRows df) =>
      let total := series_sum (weight <$> df) in
      if num_le0 total then (Abort BaseWeightsNotPositive, w)
      else (Val ((fun r => BaseEntry r (num_div (weight r) total)) <$> df), w)
  end.

(** [series_map[ticker] = series] on a dict, which keeps the position of a
    key it already holds. *)
Fixpoint dict_set {V} (k : string) (v : V) (d : list (string * V))
    : list (string * V) :=
  match d with
  | [] => [(k, v)]
  | (k', v') :: d' =>
      if decide (k = k') then (k, v) :: d' else (k', v') :: dict_set k v d'
  end.

Fixpoint series_at (d : Z) (s : list (Z * F)) : option F :=
  match s with
  | [] => None
  | (d', p) :: s' => if decide (d = d') then Some p else series_at d s'
  end.

(** [pd.concat(series_map, axis=1, join="inner").sort_index()]: the dates
    every series has, in ascending order, and for each the prices of the
    series in their order. *)
Definition common_dates (ss : list (list (Z * F))) : list Z :=
  match ss with
  | [] => []
  | s0 :: rest => filter (fun d => Forall (fun s => d ∈ s.*1) rest) (s0.*1)
  end.

Definition inner_join (ss : list (list (Z * F))) : list (Z * list F) :=
  (fun d => (d, omap (series_at d) ss)) <$> merge_sort Z.le (common_dates ss).

(** Lines 113-119 of [fetch_prices]: [pd.concat] refuses an empty dict, and
    [frame.columns = tickers] a list of another length than the columns. *)
Definition align (tickers : list string)
    (series_map : list (string * list (Z * F))) : result price_frame :=
  match series_map with
  | [] => Abort (Uncaught "ValueError: No objects to concatenate")
  | _ :: _ =>
      let frame := inner_join (series_map.*2) in
      match frame with
      | [] => Abort NoOverlappingDays
      | _ :: _ =>
          if decide (length tickers = length series_map)
          then Val (PriceFrame tickers frame)
          else Abort (Uncaught "ValueError: Length mismatch")
      end
  end.

(** Lines 103-106 of [fetch_prices]: the adjusted closes of the table, and
    of those the ones inside the requested window. *)
Definition window_series (df : list (Z * bar)) (start_date end_date : Z)
    : list (Z * F) :=
  filter (fun x => in_window start_date end_date x.1)
         ((fun x => (x.1, bar_adjclose x.2)) <$> df).

(** The loop of [fetch_prices] (the pause between two requests takes time
    and changes nothing else). *)
Fixpoint fetch_series (tickers : list string) (start_date end_date : Z)
    (series_map : list (string * list (Z * F)))
    : M (list (string * list (Z * F))) :=
  match tickers with
  | [] => mret series_map
  | ticker :: tickers' =>
      df ← get_daily_historic_data ticker (start_date - 7) end_date;
      match df with
      | [] => abort (NoDataReturned ticker)
      | _ :: _ =>
          let series := window_series df start_date end_date in
          match series with
          | [] => abort (NoDataInWindow ticker)
          | _ :: _ =>
              fetch_series tickers' start_date end_date
                           (dict_set ticker series series_map)
          end
      end
  end.

Definition fetch_prices (tickers : list string) (start_date end_date : Z)
    : M price_frame :=
  series_map ← fetch_series tickers start_date end_date [];
  lift (align tickers series_map).

(** [Series.pct_change(fill_method=None)]: the ratio to the previous value
    less one; the first position has no previous value and is missing. *)
Fixpoint pct_change_from (prev : F) (l : list F) : list (option F) :=
  match l with
  | [] => []
  | x :: l' => Some (num_sub (num_div x prev) num_one) :: pct_change_from x l'
  end.

Definition series_pct_change (l : list F) : list (option F) :=
  match l with
  | [] => []
  | x :: l' => None :: pct_change_from x l'
  end.

(** [fillna(0.0)] fills what is missing and what is not a number. *)
Definition fillna0 (o : option F) : F :=
  match o with
  | None => num_zero
  | Some x => if num_isnan x then num_zero else x
  end.

(** [base_weights] is the column [weight_frac] of the base table; its labels
    are the tickers the columns of [price_frame] are named after, in the
    same order, so that pandas pairs weights and columns by position. *)
Definition compute_net_values (frame : price_frame) (base_weights : list F)
    (start_value : F) : result (list nv_row) :=
  match rows frame with
  | [] => Abort (Uncaught "IndexError: single positional indexer is out-of-bounds")
  | (_, base_prices) :: _ =>
      let rel_prices := (fun r => zip_with num_div r base_prices) <$> (rows frame).*2 in
      let weighted := (fun r => zip_with num_mul r base_weights) <$> rel_prices in
      let portfolio_value := sum_rows weighted in
      match portfolio_value with
      | [] => Abort (Uncaught "IndexError: single positional indexer is out-of-bounds")
      | pv0 :: _ =>
          let net_values :=
            (fun pv => num_mul (num_div pv pv0) start_value) <$> portfolio_value in
          let pct := fillna0 <$> series_pct_change net_values in
          Val (zip_with (fun d x => NvRow d x.1 x.2)
                        (rows frame).*1 (zip net_values pct))
      end
  end.

(** The value of each holding at the latest prices, relative to the first
    row of the table: [base_portfolio["weight_frac"] * (latest_prices /
    base_prices)]. *)
Definition latest_values (base_portfolio : list base_entry)
    (latest_prices base_prices : list F) : list F :=
  zip_with num_mul (weight_frac <$> base_portfolio)
           (zip_with num_div latest_prices base_prices).

(** A row of the live table: the row of the base table with its weight
    replaced by [(latest_value / total * 100).round(4)]. *)
Definition live_row (total : F) (e : base_entry) (v : F) : base_row :=
  BaseRow (ticker (entry_row e)) (stock_name (entry_row e))
          (num_round4 (num_mul (num_div v total) num_hundred))
          (reason (entry_row e)).

Definition update_live_weights (base_portfolio : list base_entry)
    (frame : price_frame) : result (list base_row) :=
  match rows frame, last (rows frame) with
  | (_, base_prices) :: _, Some (_, latest_prices) =>
      let values := latest_values base_portfolio latest_prices base_prices in
      Val (zip_with (live_row (series_sum values)) base_portfolio values)
  | _, _ => Abort (Uncaught "IndexError: single positional indexer is out-of-bounds")
  end.

Definition write_net_values (df : list nv_row) : M unit :=
  modify (set_net_values df).

Definition write_portfolio (df : list base_row) : M unit :=
  modify (set_portfolio df).

(** [load_net_values]: sort by date, and of the rows of one date keep the
    last (in the order the sort leaves them in). *)
Definition date_le (r1 r2 : nv_row) : Prop := nv_date r1 ≤ nv_date r2.

#[export] Instance date_le_dec r1 r2 : Decision (date_le r1 r2) :=
  Z_le_dec (nv_date r1) (nv_date r2).

(** [df.sort_values("date")].  The rows of one date stay in the order of the
    file: that is the order numpy's default sort leaves them in for up to 16
    rows, which it sorts by insertion.  Longer files it partitions first,
    and pandas does not promise an order among the rows of one date; where
    that order matters, the properties below are stated for files of up to
    16 rows or without a repeated date (see [order_settled]). *)
Fixpoint insert_by_date (r : nv_row) (df : list nv_row) : list nv_row :=
  match df with
  | [] => [r]
  | r' :: df' =>
      if decide (nv_date r ≤ nv_date r') then r :: df
      else r' :: insert_by_date r df'
  end.

Definition sort_values (df : list nv_row) : list nv_row :=
  foldr insert_by_date [] df.

Fixpoint drop_duplicates_keep_last (df : list nv_row) : list nv_row :=
  match df with
  | [] => []
  | r :: df' =>
      if decide (nv_date r ∈ nv_date <$> df') then drop_duplicates_keep_last df'
      else r :: drop_duplicates_keep_last df'
  end.

Definition load_net_values (csv : list nv_row) : list nv_row :=
  drop_duplicates_keep_last (sort_values csv).

(** [d["date"].min()], which is NaN on a table without rows. *)
Definition date_min (df : list nv_row) : option Z :=
  foldr (fun r acc =>
           match acc with
           | None => Some (nv_date r)
           | Some m => Some (Z.min (nv_date r) m)
           end) None df.

(** [a < b] on two such keys; a date does not compare with NaN. *)
Definition key_lt (a b : option Z) : result bool :=
  match a, b with
  | Some x, Some y => Val (bool_decide (x < y))
  | None, None => Val false
  | _, _ => Abort (Uncaught "TypeError: '<' not supported between 'datetime.date' and 'float'")
  end.

(** [min(loaded, key=...)]: the first of the tables with the least key. *)
Fixpoint min_from (best : list nv_row) (l : list (list nv_row))
    : result (list nv_row) :=
  match l with
  | [] => Val best
  | df :: l' =>
      lt ← key_lt (date_min df) (date_min best);
      min_from (if lt : bool then df else best) l'
  end.

(** Lines 165-184 of [main]. *)
Definition load_existing : M (option (list nv_row)) := fun w =>
  let existing_candidates :=
    option_list (net_values_file w) ++ option_list (legacy_file w) in
  match load_net_values <$> existing_candidates with
  | [] => (Val None, w)
  | df :: loaded => (min_from df loaded ≫= (fun chosen => Val (Some chosen)), w)
  end.

(** [base_portfolio["ticker"].tolist()]. *)
Definition tickers_of (base_portfolio : list base_entry) : list string :=
  (fun e => ticker (entry_row e)) <$> base_portfolio.

(** Lines 188-209 of [main]: the update of the net-value history. *)
Definition update_history (rebalance_date : Z)
    (base_portfolio : list base_entry) (existing_df : option (list nv_row))
    (today : Z) : M unit :=
  let tickers := tickers_of base_portfolio in
  match existing_df, existing_df ≫= last with
  | Some existing, Some last_row =>
      let last_date := nv_date last_row in
      let last_value := net_value last_row in
      if decide (today ≤ last_date) then early_return
      else
        let start_date := Z.max rebalance_date last_date in
        price_frame ← fetch_prices tickers start_date today;
        net_values ← lift (compute_net_values price_frame
                             (weight_frac <$> base_portfolio) last_value);
        let new_rows := tail net_values in
        write_net_values (existing ++ new_rows)
  | _, _ =>
      if decide (today ≤ rebalance_date) then abort BeforeRebalance
      else
        price_frame ← fetch_prices tickers rebalance_date today;
        net_values ← lift (compute_net_values price_frame
                             (weight_frac <$> base_portfolio) num_one);
        write_net_values net_values
  end.

(** Lines 211-215 of [main]: the live weights. *)
Definition refresh_live_weights (rebalance_date : Z)
    (base_portfolio : list base_entry) (today : Z) : M unit :=
  let tickers := tickers_of base_portfolio in
  price_frame_for_weights ← fetch_prices tickers rebalance_date today;
  live_portfolio ← lift (update_live_weights base_portfolio price_frame_for_weights);
  write_portfolio live_portfolio.

Definition main : M unit :=
  api_key ← load_api_key;
  rebalance_date ← load_rebalance_date;
  base_portfolio ← load_base_portfolio;
  existing_df ← load_existing;
  today ← ask clock;
  update_history rebalance_date base_portfolio existing_df today;;
  refresh_live_weights rebalance_date base_portfolio today.

End Pipeline.

(** ** The request URL of public/price/alpha_vantage.py *)

Definition ALPHA_VANTAGE_BASE_URL : string := "https://www.alphavantage.co".
Definition ALPHA_VANTAGE_TIME_SERIES_FUNC : string := "TIME_SERIES_DAILY_ADJUSTED".

(** The key [AlphaVantage()] takes when it is given none. *)
Definition default_api_key : string := "XI1HLJDZAEDM22FA".

(** [_construct_alpha_vantage_symbol_call]: the parts are put one after the
    other as they are. *)
Definition _construct_alpha_vantage_symbol_call (api_key ticker : string)
    : string :=
  ALPHA_VANTAGE_BASE_URL +:+ "/query?" +:+
  "function=" +:+ ALPHA_VANTAGE_TIME_SERIES_FUNC +:+
  "&symbol=" +:+ ticker +:+ "&outputsize=full&apikey=" +:+ api_key.

(** ** Notions used to state the properties *)

Section Notions.
Context {F : Type} `{!Numeric F}.


(** [w'] is [w] but for the number of requests, which did not go down. *)
Definition only_requests (w w' : @world F) : Prop :=
  w' = with_requests (requests w') w ∧ (requests w ≤ requests w')%nat.

(** What the loop of [get_daily_historic_data] keeps of a key. *)
Definition kept (data : gmap Z (@series_bar F)) (a b d : Z)
    : option (Z * @bar F) :=
  if (d <? a) || (b <? d) then None
  else match data !! d with
       | Some (ParsedBar x) => Some (d, x)
       | _ => None
       end.

(** The bars of a response that convert and are dated from [a] to [b], in
    ascending order of date: the rows [get_daily_historic_data] returns when
    it returns. *)
Definition kept_rows (r : @response F) (a b : Z) : list (Z * @bar F) :=
  match r with
  | TimeSeries data => omap (kept data a b) (merge_sort Z.le (elements (dom data)))
  | _ => []
  end.

(** The response has a bar dated from [a] to [b] that does not convert. *)
Definition bad_bar_in (r : @response F) (a b : Z) : Prop :=
  ∃ data d exception,
    r = TimeSeries data ∧ a ≤ d ∧ d ≤ b ∧ data !! d = Some (BadBar exception).

(** The response carries a time series that the loop cannot go through: it
    is no object, or one of its keys is no date. *)
Definition series_unreadable (r : @response F) : Prop :=
  r = SeriesNotObject ∨ ∃ data position, r = SeriesBadKey data position.

(** The rows and the series that [fetch_prices], started on [w] for the
    window from [a] to [b], gets for its [i]-th ticker [t]. *)
Definition answered_rows (w : @world F) (a b : Z) (i : nat) (t : string)
    : list (Z * @bar F) :=
  kept_rows (provider w (requests w + i) t) (a - 7) b.

(** What the call for the [i]-th ticker ends with. *)
Definition answered (w : @world F) (a b : Z) (i : nat) (t : string)
    : result (list (Z * @bar F)) :=
  historic_rows (provider w (requests w + i) t) (a - 7) b.

Definition answered_series (w : @world F) (a b : Z) (i : nat) (t : string)
    : list (Z * F) :=
  window_series (answered_rows w a b i t) a b.

(** The dates of a series ascend and lie in the window. *)
Definition series_ok (a b : Z) (s : list (Z * F)) : Prop :=
  StronglySorted Z.lt (s.*1) ∧ Forall (in_window a b) (s.*1).

(** The provider gives a ticker the same answer at every request. *)
Definition steady (w : @world F) : Prop :=
  ∀ n t, provider w n t = provider w 0%nat t.

(** [w2] has the configuration of [w]: all but the two records a run writes
    and the number of requests. *)
Definition same_config (w w2 : @world F) : Prop :=
  env_api_key w2 = env_api_key w ∧ api_key_file w2 = api_key_file w
  ∧ meta_file w2 = meta_file w ∧ base_file w2 = base_file w
  ∧ legacy_file w2 = legacy_file w ∧ clock w2 = clock w
  ∧ provider w2 = provider w.

(** [w2] has all that a run of [main] on [w] reads. *)
Definition same_inputs (w w2 : @world F) : Prop :=
  same_config w w2 ∧ net_values_file w2 = net_values_file w.

(** A computation that, with a steady provider, ends the same way from any two
    worlds with the same inputs, in worlds with the same inputs. *)
Definition replayable {A} (m : M A) : Prop :=
  ∀ w w2 r w',
    steady w → same_inputs w w2 → m w = (r, w') →
    same_config w w' ∧ ∃ w2', m w2 = (r, w2') ∧ same_inputs w' w2'.

(** The loop of [fetch_prices] with a provider that answers [answer t] to
    every request for [t]. *)
Fixpoint gather (answer : string → @response F) (tickers : list string)
    (a b : Z) (series_map : list (string * list (Z * F)))
    : result (list (string * list (Z * F))) :=
  match tickers with
  | [] => Val series_map
  | ticker :: tickers' =>
      match historic_rows (answer ticker) (a - 7) b with
      | Val [] => Abort (NoDataReturned ticker)
      | Val df =>
          match window_series df a b with
          | [] => Abort (NoDataInWindow ticker)
          | series => gather answer tickers' a b (dict_set ticker series series_map)
          end
      | Ret => Ret
      | Abort e => Abort e
      end
  end.

Definition priced (answer : string → @response F) (tickers : list string)
    (a b : Z) : result price_frame :=
  gather answer tickers a b [] ≫= align tickers.

(** [x'] is the series of [x] from [a'] on. *)
Definition narrowed (a' : Z) (x x' : string * list (Z * F)) : Prop :=
  x'.1 = x.1 ∧ ∀ d, d ∈ x'.2.*1 ↔ d ∈ x.2.*1 ∧ a' ≤ d.

(** The order [sort_values] leaves the rows of one date in is settled: the
    file has at most 16 rows, or no date twice. *)
Definition order_settled (csv : list (@nv_row F)) : Prop :=
  (length csv ≤ 16)%nat ∨ NoDup (nv_date <$> csv).

(** So it is in every history file of [w]. *)
Definition files_settled (w : @world F) : Prop :=
  ∀ csv, net_values_file w = Some csv ∨ legacy_file w = Some csv →
         order_settled csv.

(** The reads at the start of [main] went through on [w]. *)
Definition prelude (w : @world F) (rebalance_date : Z)
    (base_portfolio : list (@base_entry F))
    (existing_df : option (list (@nv_row F))) : Prop :=
  (∃ key, load_api_key w = (Val key, w))
  ∧ load_rebalance_date w = (Val rebalance_date, w)
  ∧ load_base_portfolio w = (Val base_portfolio, w)
  ∧ load_existing w = (Val existing_df, w).

End Notions.


(** ** Scenarios on binary64 numbers: one holding, A, with three daily bars *)

Module Scenario.

Definition price_bar (p : float) : @bar float := Bar p p p p 0 p.

Definition bars_A : gmap Z (@series_bar float) :=
  list_to_map [(20, ParsedBar (price_bar 100)); (21, ParsedBar (price_bar 110));
               (22, ParsedBar (price_bar 121))].

Definition one_holding : @base_csv float :=
  BaseRows [BaseRow "A" (Some "Alpha") 100%float (Some "core")].

(** The provider answers every request. *)
Definition steady_provider : nat → string → @response float :=
  fun _ _ => TimeSeries bars_A.

(** The provider answers the first request and turns down the later ones. *)
Definition limited_provider : nat → string → @response float :=
  fun n _ =>
    match n with
    | O => TimeSeries bars_A
    | S _ => NoTimeSeries (Some "rate limit reached") None
    end.

(** The history ends today, day 22. *)
Definition up_to_date : @world float :=
  World (Some "key") None (Some (Some 20)) (Some one_holding)
        (Some [NvRow 21 1%float 0%float; NvRow 22 1.25%float 0.25%float])
        None None 22 steady_provider 0.

(** No history yet, rebalanced on day 20, run on day 22, with a provider that
    answers once. *)
Definition rate_limited : @world float :=
  World (Some "key") None (Some (Some 20)) (Some one_holding)
        None None None 22 limited_provider 0.

(** The history ends on day 10, the portfolio was rebalanced on day 20, and
    the run is on day 22. *)
Definition rebalanced_later : @world float :=
  World (Some "key") None (Some (Some 20)) (Some one_holding)
        (Some [NvRow 10 1.5%float 0%float])
        None None 22 steady_provider 0.

(** Two candidate histories: the public one starts on day 15, the legacy one
    on day 5; both end before the rebalance date, day 20. *)
Definition two_histories : @world float :=
  World (Some "key") None (Some (Some 20)) (Some one_holding)
        (Some [NvRow 15 1.25%float 0%float; NvRow 16 1.5%float 0.25%float])
        (Some [NvRow 5 1%float 0%float; NvRow 16 2%float 1%float])
        None 22 steady_provider 0.

End Scenario.

(** ** Further scenarios *)

Module Cases.

(** No history yet, rebalanced on day 20, run on day 22, every request
    answered. *)
Definition first_run : @world float :=
  World (Some "key") None (Some (Some 20)) (Some Scenario.one_holding)
        None None None 22 Scenario.steady_provider 0.

(** No history yet, and the run is on the rebalance date itself. *)
Definition too_early : @world float :=
  World (Some "key") None (Some (Some 20)) (Some Scenario.one_holding)
        None None None 20 Scenario.steady_provider 0.

(** The history ends on day 10, the run is on day 15, and the rebalance date
    is day 20. *)
Definition rebalance_ahead : @world float :=
  World (Some "key") None (Some (Some 20)) (Some Scenario.one_holding)
        (Some [NvRow 10 1.5%float 0%float])
        None None 15 Scenario.steady_provider 0.

(** A base table whose weight cells are empty. *)
Definition unweighted_rows : list (@base_row float) :=
  [BaseRow "A" (Some "Alpha") nan None; BaseRow "B" None nan None].

Definition unweighted : @world float :=
  World (Some "key") None (Some (Some 20)) (Some (BaseRows unweighted_rows))
        None None None 22 Scenario.steady_provider 0.

(** The provider answers with a series in which the adjusted close of day
    21 is text that is no number. *)
Definition bars_malformed : gmap Z (@series_bar float) :=
  list_to_map
    [(20, ParsedBar (Scenario.price_bar 100));
     (21, BadBar "ValueError: could not convert string to float");
     (22, ParsedBar (Scenario.price_bar 121))].

Definition malformed : @world float :=
  World (Some "key") None (Some (Some 20)) (Some Scenario.one_holding)
        None None None 22 (fun _ _ => TimeSeries bars_malformed) 0.

(** The provider answers with the three bars of A and, after them, a key
    that is no date. *)
Definition stray_key : @world float :=
  World (Some "key") None (Some (Some 20)) (Some Scenario.one_holding)
        None None None 22 (fun _ _ => SeriesBadKey Scenario.bars_A 23) 0.



(** The value of a result, or the empty list. *)
Definition value_or_nil {A} (r : result (list A)) : list A :=
  match r with Val l => l | _ => [] end.

End Cases.


(** * Properties *)

(** ** Ascending lists of dates *)

Section SortedDates.

Lemma strict_of_nodup (l : list Z) :
  NoDup l → StronglySorted Z.le l → StronglySorted Z.lt l.
Proof.
  induction 2 as [|x l Hl IH Hx]; [constructor|].
  apply NoDup_cons in H as [Hnotin Hnd].
  constructor; [by apply IH|].
  rewrite Forall_forall in Hx |- *. intros y Hy.
  specialize (Hx y Hy). assert (x ≠ y) by (intros ->; done). lia.
Qed.

Lemma strict_nodup (l : list Z) : StronglySorted Z.lt l → NoDup l.
Proof.
  induction 1 as [|x l Hl IH Hx]; constructor; [|done].
  intros Hin. rewrite Forall_forall in Hx. specialize (Hx x Hin). lia.
Qed.

Lemma strict_weaken (l : list Z) : StronglySorted Z.lt l → StronglySorted Z.le l.
Proof.
  induction 1 as [|x l Hl IH Hx]; constructor; [done|].
  eapply Forall_impl; [done|]. intros; simpl in *; lia.
Qed.

Lemma sort_dates_elem (l : list Z) d : d ∈ merge_sort Z.le l ↔ d ∈ l.
Proof. by rewrite merge_sort_Permutation. Qed.

Lemma sort_dates_strict (l : list Z) :
  NoDup l → StronglySorted Z.lt (merge_sort Z.le l).
Proof.
  intros Hnd. apply strict_of_nodup.
  - by rewrite merge_sort_Permutation.
  - apply StronglySorted_merge_sort; apply _.
Qed.

Lemma strict_ext (l1 l2 : list Z) :
  StronglySorted Z.lt l1 → StronglySorted Z.lt l2 →
  (∀ d, d ∈ l1 ↔ d ∈ l2) → l1 = l2.
Proof.
  intros H1 H2 Hiff.
  apply (StronglySorted_unique Z.le); [by apply strict_weaken..|].
  apply NoDup_Permutation; auto using strict_nodup.
Qed.

Lemma strict_filter (P : Z → Prop) `{∀ x, Decision (P x)} (l : list Z) :
  StronglySorted Z.lt l → StronglySorted Z.lt (filter P l).
Proof.
  induction 1 as [|x l Hl IH Hx]; [constructor|].
  rewrite filter_cons. destruct (decide (P x)); [|done].
  constructor; [done|].
  rewrite Forall_forall in Hx |- *. intros y [_ Hy]%list_elem_of_filter. auto.
Qed.

End SortedDates.

(** ** The alignment of the series *)

Section Align.
Context {F : Type} `{!Numeric F}.
Implicit Types (s : list (Z * F)) (ss : list (list (Z * F))).

Lemma series_at_Some d s p : series_at d s = Some p → (d, p) ∈ s.
Proof.
  induction s as [|[d' p'] s IH]; simpl; [done|].
  case_decide; [intros [= ->]; subst; left|intros; right; auto].
Qed.

Lemma series_at_is_Some d s : d ∈ s.*1 → is_Some (series_at d s).
Proof.
  induction s as [|[d' p'] s IH]; simpl; [by intros ?%elem_of_nil|].
  intros Hin. case_decide; [eauto|].
  apply elem_of_cons in Hin as [?|?]; [done|auto].
Qed.

Lemma elem_of_common_dates ss d :
  ss ≠ [] → d ∈ common_dates ss ↔ ∀ s, s ∈ ss → d ∈ s.*1.
Proof.
  destruct ss as [|s0 rest]; [done|]. intros _. unfold common_dates.
  rewrite list_elem_of_filter, Forall_forall. split.
  - intros [Hr H0] s [->|?]%elem_of_cons; auto.
  - intros Hall. split; [intros s ?|]; apply Hall; by constructor.
Qed.

Lemma NoDup_common_dates ss :
  Forall (fun s => NoDup (s.*1)) ss → NoDup (common_dates ss).
Proof.
  destruct 1 as [|s0 rest H0 _]; [constructor|].
  by apply NoDup_filter.
Qed.

Lemma inner_join_dates ss :
  (inner_join ss).*1 = merge_sort Z.le (common_dates ss).
Proof.
  unfold inner_join. rewrite <- list_fmap_compose.
  induction (merge_sort Z.le (common_dates ss)) as [|d l IH]; [done|].
  rewrite fmap_cons. simpl. by f_equal.
Qed.

Lemma elem_of_inner_join_dates ss d :
  ss ≠ [] → d ∈ (inner_join ss).*1 ↔ ∀ s, s ∈ ss → d ∈ s.*1.
Proof.
  intros. by rewrite inner_join_dates, sort_dates_elem, elem_of_common_dates.
Qed.

Lemma inner_join_strict ss :
  Forall (fun s => NoDup (s.*1)) ss → StronglySorted Z.lt ((inner_join ss).*1).
Proof.
  intros. rewrite inner_join_dates. by apply sort_dates_strict, NoDup_common_dates.
Qed.

Lemma cells_of_common ss d :
  (∀ s, s ∈ ss → d ∈ s.*1) →
  Forall2 (fun s p => (d, p) ∈ s) ss (omap (series_at d) ss).
Proof.
  induction ss as [|s ss IH]; intros Hall; simpl; [constructor|].
  destruct (series_at_is_Some d s) as [p Hp]; [apply Hall; by left|].
  rewrite Hp. constructor; [by apply series_at_Some|].
  apply IH. intros; apply Hall; by right.
Qed.

Lemma inner_join_cells ss d cells :
  ss ≠ [] → (d, cells) ∈ inner_join ss → Forall2 (fun s p => (d, p) ∈ s) ss cells.
Proof.
  intros Hne Hin. unfold inner_join in Hin.
  apply list_elem_of_fmap in Hin as (d' & [= -> ->] & Hd).
  apply cells_of_common.
  by rewrite sort_dates_elem, elem_of_common_dates in Hd.
Qed.

Lemma inner_join_perm ss ss' :
  Forall (fun s => NoDup (s.*1)) ss → ss' ≡ₚ ss →
  (inner_join ss').*1 = (inner_join ss).*1.
Proof.
  intros Hnd Hp.
  destruct (decide (ss = [])) as [->|Hne].
  { by apply Permutation_nil_r in Hp as ->. }
  assert (ss' ≠ []) by (intros ->; by apply Permutation_nil in Hp).
  apply strict_ext.
  - apply inner_join_strict. by rewrite Hp.
  - by apply inner_join_strict.
  - intros d. rewrite !elem_of_inner_join_dates by done.
    by setoid_rewrite Hp.
Qed.

(** C7: the aligned table has one row for each date that every series
    has, and no other, in strictly ascending order of date; its columns are
    the tickers as the caller gave them, and each cell holds the price of
    its series at the date of its row.  When no date is common to all series
    the alignment ends the run with [NoOverlappingDays].  The dates of the
    rows do not depend on the order in which the series are given. *)
Theorem align_sorted_intersection (tickers : list string)
    (series_map : list (string * list (Z * F))) :
  series_map ≠ [] →
  length tickers = length series_map →
  Forall (fun s => NoDup (s.*1)) (series_map.*2) →
  ((∃ d, ∀ s, s ∈ series_map.*2 → d ∈ s.*1) →
   ∃ frame,
     align tickers series_map = Val frame ∧
     columns frame = tickers ∧
     StronglySorted Z.lt ((rows frame).*1) ∧
     (∀ d, d ∈ (rows frame).*1 ↔ ∀ s, s ∈ series_map.*2 → d ∈ s.*1) ∧
     (∀ d cells, (d, cells) ∈ rows frame →
        Forall2 (fun s p => (d, p) ∈ s) (series_map.*2) cells)) ∧
  ((¬ ∃ d, ∀ s, s ∈ series_map.*2 → d ∈ s.*1) →
   align tickers series_map = Abort NoOverlappingDays) ∧
  (∀ ss', ss' ≡ₚ series_map.*2 →
     (inner_join ss').*1 = (inner_join (series_map.*2)).*1).
Proof.
  intros Hne Hlen Hnd.
  assert (Hne2 : series_map.*2 ≠ []) by (by destruct series_map).
  split; [|split].
  - intros [d Hd].
    apply (elem_of_inner_join_dates _ _ Hne2) in Hd.
    pose proof (inner_join_strict _ Hnd) as Hs.
    pose proof (fun d => elem_of_inner_join_dates (series_map.*2) d Hne2) as Hm.
    pose proof (fun d cells => inner_join_cells (series_map.*2) d cells Hne2) as Hc.
    unfold align. destruct series_map as [|x sm]; [done|].
    destruct (inner_join ((x :: sm).*2)) as [|r fr].
    { by apply elem_of_nil in Hd. }
    rewrite decide_True by done. eauto 10.
  - intros Hnone. unfold align. destruct series_map as [|x sm]; [done|].
    destruct (inner_join ((x :: sm).*2)) as [|[d cells] fr] eqn:Hj; [done|].
    destruct Hnone. exists d.
    apply (elem_of_inner_join_dates _ _ Hne2). rewrite Hj. by left.
  - intros ss' Hp. by apply inner_join_perm.
Qed.

End Align.

Lemma align_sorted_intersection_witness :
  ∃ frame,
    align ["A"; "B"; "C"]
          [("A", [(1, 10%float); (2, 11%float); (3, 12%float)]);
           ("B", [(4, 23%float); (3, 22%float); (2, 21%float)]);
           ("C", [(2, 31%float); (3, 32%float)])]
    = Val frame
    ∧ columns frame = ["A"; "B"; "C"]
    ∧ StronglySorted Z.lt ((rows frame).*1)
    ∧ ∀ d, d ∈ (rows frame).*1 ↔ d = 2 ∨ d = 3.
Proof.
  destruct (align_sorted_intersection (F:=float) ["A"; "B"; "C"]
              [("A", [(1, 10%float); (2, 11%float); (3, 12%float)]);
               ("B", [(4, 23%float); (3, 22%float); (2, 21%float)]);
               ("C", [(2, 31%float); (3, 32%float)])]) as [Hsome _].
  - discriminate.
  - reflexivity.
  - by apply (bool_decide_unpack _).
  - destruct Hsome as (frame & Heq & Hcols & Hsorted & Hdates & _).
    + exists 2. apply Forall_forall. by apply (bool_decide_unpack _).
    + exists frame. split; [exact Heq|]. split; [exact Hcols|].
      split; [exact Hsorted|]. intros d. rewrite Hdates. split.
      * intros Hall.
        assert (H1 : d ∈ [(2, 31%float); (3, 32%float)].*1).
        { apply Hall. cbn. do 2 right. left. }
        cbn in H1. rewrite !elem_of_cons, elem_of_nil in H1. tauto.
      * intros [->| ->]; apply Forall_forall; by apply (bool_decide_unpack _).
Defined.

(** ** The net-value series *)

Section NetValues.
Context {F : Type} `{!Numeric F}.



(** *** The sums *)

Lemma add_blocks_length blocks (lanes l : list F) :
  (blocks * 8 ≤ length l)%nat →
  length (add_blocks blocks lanes l).2 = (length l - blocks * 8)%nat.
Proof.
  revert lanes l. induction blocks as [|k IH]; intros lanes l Hl; cbn.
  - lia.
  - rewrite IH; rewrite length_drop; lia.
Qed.

(** The cuts of [pairwise_sum] end before the fuel does. *)
Lemma pairwise_sum_aux_fuel fuel fuel' (l : list F) :
  (length l ≤ fuel)%nat → (length l ≤ fuel')%nat →
  pairwise_sum_aux fuel l = pairwise_sum_aux fuel' l.
Proof.
  revert fuel' l. induction fuel as [|fuel IH]; intros fuel' l Hf Hf'.
  - destruct l; [|cbn in Hf; lia]. by destruct fuel'.
  - destruct fuel' as [|fuel'].
    { destruct l; [done|cbn in Hf'; lia]. }
    cbn [pairwise_sum_aux].
    destruct (length l <? 8)%nat eqn:H8; [done|].
    destruct (length l <=? 128)%nat eqn:H128; [done|].
    apply Nat.ltb_ge in H8. apply Nat.leb_gt in H128.
    set (n2 := (length l / 2 - (length l / 2) mod 8)%nat).
    assert (Hn2 : (0 < n2 < length l)%nat).
    { unfold n2. pose proof (Nat.mod_upper_bound (length l / 2) 8 ltac:(lia)).
      pose proof (Nat.div_lt (length l) 2 ltac:(lia) ltac:(lia)).
      assert (64 ≤ length l / 2)%nat by (apply Nat.div_le_lower_bound; lia).
      lia. }
    f_equal; apply IH; rewrite ?length_take, ?length_drop; lia.
Qed.

Lemma pairwise_sum_unfold (l : list F) :
  pairwise_sum l =
  if (length l <? 8)%nat then add_all num_zero l
  else if (length l <=? 128)%nat then unrolled_sum l
  else
    let n2 := (length l / 2 - (length l / 2) mod 8)%nat in
    num_add (pairwise_sum (take n2 l)) (pairwise_sum (drop n2 l)).
Proof.
  unfold pairwise_sum. destruct l as [|x l]; [done|].
  cbn [length pairwise_sum_aux].
  destruct (S (length l) <? 8)%nat eqn:H8; [done|].
  destruct (S (length l) <=? 128)%nat eqn:H128; [done|].
  apply Nat.ltb_ge in H8. apply Nat.leb_gt in H128. cbv zeta.
  set (n2 := (S (length l) / 2 - (S (length l) / 2) mod 8)%nat).
  assert (Hn2 : (0 < n2 < S (length l))%nat).
  { unfold n2. pose proof (Nat.mod_upper_bound (S (length l) / 2) 8 ltac:(lia)).
    pose proof (Nat.div_lt (S (length l)) 2 ltac:(lia) ltac:(lia)).
    assert (64 ≤ S (length l) / 2)%nat by (apply Nat.div_le_lower_bound; lia).
    lia. }
  f_equal; apply pairwise_sum_aux_fuel;
    rewrite ?length_take, ?length_drop; cbn [length]; lia.
Qed.



(** The sums of the rows are taken in one of two ways, the same for every
    row. *)
Lemma sum_rows_cases (table : list (list F)) :
  sum_rows table = series_sum <$> table
  ∨ (has_nan table = false ∧ sum_rows table = add_all num_zero <$> table).
Proof.
  unfold sum_rows. destruct (has_nan table); [by left|].
  destruct (length table =? 1)%nat; [by left|by right].
Qed.

Lemma length_sum_rows (table : list (list F)) :
  length (sum_rows table) = length table.
Proof. destruct (sum_rows_cases table) as [->|[_ ->]]; by rewrite length_fmap. Qed.

(** *** The rows of the series *)

Lemma length_pct_change_from prev (l : list F) :
  length (pct_change_from prev l) = length l.
Proof. revert prev; induction l; intros; simpl; auto. Qed.



Lemma nv_rows_dates (dates : list Z) (xs : list (F * F)) :
  length dates = length xs →
  nv_date <$> zip_with (fun d x => NvRow d x.1 x.2) dates xs = dates.
Proof.
  revert xs. induction dates as [|d dates IH]; intros [|x xs] Hl; simpl in *; try done.
  f_equal. apply IH. lia.
Qed.

Lemma compute_net_values_dates frame base_weights start_value out :
  compute_net_values frame base_weights start_value = Val out →
  nv_date <$> out = (rows frame).*1.
Proof.
  unfold compute_net_values. destruct (rows frame) as [|[d0 p0] rest] eqn:Hr; [done|].
  match goal with |- context [sum_rows ?t] =>
    pose proof (length_sum_rows t) as Hlen; destruct (sum_rows t) as [|pv0 pvs] end;
    [done|].
  rewrite !length_fmap in Hlen. cbn in Hlen.
  intros [= <-]. rewrite fmap_cons. cbn [fmap list_fmap fst]. f_equal.
  apply nv_rows_dates.
  change (list_fmap _ _ ?f ?l) with (f <$> l).
  rewrite length_zip_with_l_eq; rewrite ?length_fmap; [lia|].
  by rewrite length_pct_change_from, length_fmap.
Qed.


End NetValues.

(** ** Facts of binary64 arithmetic *)

Module Binary64Facts.
Import Binary64.










End Binary64Facts.




(** ** The live weights *)

Section LiveWeights.
Context {F : Type} `{!Numeric F}.




End LiveWeights.




(** ** The rows the provider gives *)

Section Fetch.
Context {F : Type} `{!Numeric F}.
Implicit Types (w : @world F) (data : gmap Z (@series_bar F)).

Lemma kept_Some data a b d y :
  kept data a b d = Some y ↔ y.1 = d ∧ a ≤ d ∧ d ≤ b ∧ data !! d = Some (ParsedBar y.2).
Proof.
  unfold kept. destruct y as [d' x]. cbn.
  destruct (Z.ltb_spec d a), (Z.ltb_spec b d); cbn; try (split; [done|lia]).
  destruct (data !! d) as [[x'|e]|]; split; try done.
  - by intros [= <- <-].
  - by intros (<- & _ & _ & [= <-]).
  - by intros (_ & _ & _ & ?).
  - by intros (_ & _ & _ & ?).
Qed.

Lemma omap_fst_strict (f : Z → option (Z * @bar F)) (l : list Z) :
  (∀ d y, f d = Some y → y.1 = d) →
  StronglySorted Z.lt l → StronglySorted Z.lt (omap f l).*1.
Proof.
  intros Hf. induction 1 as [|d l Hl IH Hd]; [constructor|].
  cbn [omap list_omap]. destruct (f d) as [y|] eqn:Hy; [|done].
  rewrite fmap_cons, (Hf _ _ Hy). constructor; [done|].
  apply Forall_forall. intros d' ([d'' x] & -> & Hin)%list_elem_of_fmap.
  apply list_elem_of_omap in Hin as (k & Hk & Hfk). apply Hf in Hfk. cbn in *. subst.
  rewrite Forall_forall in Hd. auto.
Qed.

Lemma elem_of_kept_rows data a b d x :
  (d, x) ∈ kept_rows (TimeSeries data) a b
  ↔ data !! d = Some (ParsedBar x) ∧ a ≤ d ∧ d ≤ b.
Proof.
  unfold kept_rows. rewrite list_elem_of_omap. split.
  - intros (k & _ & (Hk & ? & ? & ?)%kept_Some). cbn in *. by subst.
  - intros (Hx & Ha & Hb). exists d. split.
    + rewrite merge_sort_Permutation. apply elem_of_elements, elem_of_dom. eauto.
    + by apply kept_Some.
Qed.

Lemma kept_rows_sorted (r : @response F) a b :
  StronglySorted Z.lt (kept_rows r a b).*1.
Proof.
  destruct r as [| | | | |data]; try constructor.
  unfold kept_rows. apply omap_fst_strict.
  - by intros d y (? & _)%kept_Some.
  - apply sort_dates_strict, NoDup_elements.
Qed.

Lemma kept_rows_in_window (r : @response F) a b d :
  d ∈ (kept_rows r a b).*1 → in_window a b d.
Proof.
  intros ([d' x] & -> & Hin)%list_elem_of_fmap.
  destruct r as [| | | | |data]; try (by apply elem_of_nil in Hin).
  by apply elem_of_kept_rows in Hin as (_ & ? & ?).
Qed.

Lemma window_series_dates (df : list (Z * @bar F)) a b :
  (window_series df a b).*1 = filter (in_window a b) (df.*1).
Proof.
  unfold window_series. induction df as [|[d x] df IH]; [done|].
  rewrite !fmap_cons, !filter_cons. cbn [fst snd].
  destruct (decide (in_window a b d)); rewrite ?fmap_cons; cbn [fst]; by rewrite IH.
Qed.

(** *** The loop of [get_daily_historic_data] *)

Lemma read_bars_Val data a b (keys : list Z) prices :
  (∀ d, d ∈ keys → is_Some (data !! d)) →
  (∀ d e, d ∈ keys → a ≤ d → d ≤ b → data !! d ≠ Some (BadBar e)) →
  read_bars data a b keys prices = Val (prices ++ omap (kept data a b) keys).
Proof.
  revert prices. induction keys as [|d keys IH]; intros prices Hdom Hgood; cbn.
  { by rewrite app_nil_r. }
  assert (Hdom' : ∀ d', d' ∈ keys → is_Some (data !! d')).
  { intros d' Hd'. apply Hdom. by right. }
  assert (Hgood' : ∀ d' e, d' ∈ keys → a ≤ d' → d' ≤ b → data !! d' ≠ Some (BadBar e)).
  { intros d' e Hd'. apply Hgood. by right. }
  unfold kept at 1.
  destruct (Z.ltb_spec d a), (Z.ltb_spec b d); cbn; try by apply IH.
  destruct (Hdom d) as [[x|e] Hx]; [by left| |]; rewrite Hx.
  - rewrite IH by done. by rewrite <- app_assoc.
  - destruct (Hgood d e); [by left|lia..|done].
Qed.

Lemma read_bars_Abort data a b (keys : list Z) prices d e :
  d ∈ keys → a ≤ d → d ≤ b → data !! d = Some (BadBar e) →
  ∃ e', read_bars data a b keys prices = Abort (Uncaught e').
Proof.
  revert prices. induction keys as [|k keys IH]; intros prices Hin Ha Hb Hbad.
  { by apply elem_of_nil in Hin. }
  cbn. destruct ((k <? a) || (b <? k)) eqn:Hout.
  - apply elem_of_cons in Hin as [->|Hin]; [|by apply IH].
    apply orb_true_iff in Hout as [?%Z.ltb_lt|?%Z.ltb_lt]; lia.
  - destruct (data !! k) as [[x|e']|] eqn:Hk; [|eauto..].
    apply elem_of_cons in Hin as [->|Hin]; [congruence|by apply IH].
Qed.

Lemma read_bars_not_Ret data a b (keys : list Z) prices :
  read_bars data a b keys prices ≠ Ret.
Proof.
  revert prices. induction keys as [|k keys IH]; intros prices; cbn; [done|].
  destruct ((k <? a) || (b <? k)); [apply IH|].
  destruct (data !! k) as [[x|e']|]; [apply IH|done..].
Qed.

Lemma read_bars_raises data a b (keys : list Z) prices e :
  read_bars data a b keys prices = Abort e → ∃ x, e = Uncaught x.
Proof.
  revert prices. induction keys as [|k keys IH]; intros prices; cbn; [done|].
  destruct ((k <? a) || (b <? k)); [apply IH|].
  destruct (data !! k) as [[x|e']|]; [apply IH|intros [= <-]; eauto..].
Qed.

Lemma historic_rows_not_Ret (r : @response F) a b : historic_rows r a b ≠ Ret.
Proof.
  destruct r as [| | | |data position|data]; try done.
  - cbn. destruct (read_bars _ _ _ _ _) eqn:Hr; try done.
    by apply read_bars_not_Ret in Hr.
  - apply read_bars_not_Ret.
Qed.

(** The call returns the bars of the window that convert when all of them
    do, and raises when one does not, or when the series cannot be gone
    through. *)
Lemma historic_rows_cases (r : @response F) a b :
  (¬ bad_bar_in r a b ∧ ¬ series_unreadable r
   ∧ historic_rows r a b = Val (kept_rows r a b))
  ∨ ((bad_bar_in r a b ∨ series_unreadable r)
     ∧ ∃ e, historic_rows r a b = Abort (Uncaught e)).
Proof.
  assert (Hno : ∀ r' : @response F,
             (∀ data, r' ≠ TimeSeries data) → ¬ bad_bar_in r' a b).
  { intros r' Hr' (data & _ & _ & -> & _). by destruct (Hr' data). }
  destruct r as [| |note msg| |data position|data].
  - left. split; [by apply Hno|]. split; [by intros [?|(? & ? & ?)]|done].
  - left. split; [by apply Hno|]. split; [by intros [?|(? & ? & ?)]|done].
  - left. split; [by apply Hno|]. split; [by intros [?|(? & ? & ?)]|done].
  - right. split; [right; by left|]. cbn. eauto.
  - right. split; [right; right; eauto|]. cbn.
    destruct (read_bars _ _ _ _ _) as [rows| |e] eqn:Hr; [eauto| |].
    + by apply read_bars_not_Ret in Hr.
    + apply read_bars_raises in Hr as [x ->]. eauto.
  - set (keys := merge_sort Z.le (elements (dom data))).
    assert (Hdom : ∀ d, d ∈ keys ↔ is_Some (data !! d)).
    { intros d. unfold keys.
      by rewrite merge_sort_Permutation, elem_of_elements, elem_of_dom. }
    set (bad d := bool_decide (a ≤ d ∧ d ≤ b)
                  && match data !! d with Some (BadBar _) => true | _ => false end).
    assert (Hbad_iff : ∀ d, bad d = true
                            ↔ a ≤ d ∧ d ≤ b ∧ ∃ e, data !! d = Some (BadBar e)).
    { intros d. unfold bad. rewrite andb_true_iff, bool_decide_eq_true.
      destruct (data !! d) as [[x|e]|];
        (split; [intros [[? ?] Hb]; try discriminate Hb; eauto
                |intros (? & ? & e' & He'); try discriminate He'; by split]). }
    destruct (decide (Exists (fun d => bad d = true) keys)) as [Hbad|Hgood].
    + right. apply Exists_exists in Hbad as (d & Hd & (Ha & Hb & e & He)%Hbad_iff).
      split; [left; by exists data, d, e|].
      by apply (read_bars_Abort data a b keys [] d e).
    + left. split; [|split; [by intros [?|(? & ? & ?)]|]].
      * intros (data' & d & e & [= <-] & Ha & Hb & He). apply Hgood.
        apply Exists_exists. exists d. split; [apply Hdom; eauto|].
        apply Hbad_iff. eauto.
      * cbn. fold keys. rewrite read_bars_Val; [done|by intros d ?%Hdom|].
        intros d e Hd Ha Hb He. apply Hgood, Exists_exists. exists d.
        split; [done|]. apply Hbad_iff. eauto.
Qed.

Lemma historic_rows_Val (r : @response F) a b rows :
  historic_rows r a b = Val rows →
  rows = kept_rows r a b ∧ ¬ bad_bar_in r a b ∧ ¬ series_unreadable r.
Proof.
  destruct (historic_rows_cases r a b) as [(? & ? & ->)|(_ & e & ->)]; [|done].
  by intros [= <-].
Qed.

(** What comes back for a window comes back for a window inside it. *)
Lemma bad_bar_in_wider (r : @response F) lo a b :
  lo ≤ a → bad_bar_in r a b → bad_bar_in r lo b.
Proof.
  intros Hlo (data & d & e & -> & Ha & Hb & He).
  exists data, d, e. repeat split; try done. lia.
Qed.

Lemma historic_rows_narrow (r : @response F) lo a b rows :
  lo ≤ a → historic_rows r lo b = Val rows →
  historic_rows r a b = Val (kept_rows r a b).
Proof.
  intros Hlo (_ & Hgood & Hobj)%historic_rows_Val.
  destruct (historic_rows_cases r a b) as [(_ & _ & ?)|([Hbad|Hun] & _)]; [done|..].
  - destruct Hgood. by apply (bad_bar_in_wider r lo a b).
  - done.
Qed.

End Fetch.

(** ** Runs *)

Section Runs.
Context {F : Type} `{!Numeric F}.
Implicit Types (w : @world F).

Lemma bind_inv {A B} (m : M A) (f : A → M B) w r w' :
  (m ≫= f) w = (r, w') →
  (∃ a w1, m w = (Val a, w1) ∧ f a w1 = (r, w'))
  ∨ (m w = (Ret, w') ∧ r = Ret)
  ∨ (∃ e, m w = (Abort e, w') ∧ r = Abort e).
Proof.
  unfold mbind, M_bind. destruct (m w) as [[a| |e] w1]; intros Heq.
  - left. eauto.
  - right; left. by injection Heq as <- <-.
  - right; right. injection Heq as <- <-. eauto.
Qed.

Lemma bind_Val {A B} (m : M A) (f : A → M B) w a w1 :
  m w = (Val a, w1) → (m ≫= f) w = f a w1.
Proof. unfold mbind, M_bind. by intros ->. Qed.

Lemma bind_Ret {A B} (m : M A) (f : A → M B) w w1 :
  m w = (Ret, w1) → (m ≫= f) w = (Ret, w1).
Proof. unfold mbind, M_bind. by intros ->. Qed.

Lemma bind_Abort {A B} (m : M A) (f : A → M B) w e w1 :
  m w = (Abort e, w1) → (m ≫= f) w = (Abort e, w1).
Proof. unfold mbind, M_bind. by intros ->. Qed.

Lemma only_requests_refl w : only_requests w w.
Proof. split; [by destruct w|done]. Qed.

Lemma only_requests_trans w1 w2 w3 :
  only_requests w1 w2 → only_requests w2 w3 → only_requests w1 w3.
Proof.
  intros [H12 ?] [H23 ?]. split; [|lia].
  rewrite H23 at 1. rewrite H12. done.
Qed.

Lemma only_requests_count w : only_requests w (count_request w).
Proof. split; [done|simpl; lia]. Qed.

Lemma only_requests_files w w' :
  only_requests w w' →
  net_values_file w' = net_values_file w ∧ legacy_file w' = legacy_file w
  ∧ portfolio_file w' = portfolio_file w ∧ clock w' = clock w
  ∧ provider w' = provider w.
Proof. intros [-> _]. done. Qed.

Lemma get_daily_historic_data_run ticker a b w :
  get_daily_historic_data ticker a b w
  = (historic_rows (provider w (requests w) ticker) a b, count_request w).
Proof. done. Qed.

Lemma fetch_series_cons ticker tickers a b acc w :
  fetch_series (ticker :: tickers) a b acc w =
  match historic_rows (provider w (requests w) ticker) (a - 7) b with
  | Val [] => (Abort (NoDataReturned ticker), count_request w)
  | Val df =>
      match window_series df a b with
      | [] => (Abort (NoDataInWindow ticker), count_request w)
      | series => fetch_series tickers a b (dict_set ticker series acc) (count_request w)
      end
  | Ret => (Ret, count_request w)
  | Abort e => (Abort e, count_request w)
  end.
Proof.
  cbn [fetch_series]. unfold mbind at 1, M_bind at 1.
  rewrite get_daily_historic_data_run.
  destruct (historic_rows _ _ _) as [[|x df]| |e]; try done.
  by destruct (window_series _ _ _).
Qed.

(** One turn of the loop: the call raises, and the run ends with what it
    raised; or it returns the rows [answered_rows] names, and the loop goes
    on as it would on those. *)
Lemma fetch_series_step ticker tickers a b acc w :
  (∃ e, answered w a b 0 ticker = Abort (Uncaught e)
        ∧ fetch_series (ticker :: tickers) a b acc w
          = (Abort (Uncaught e), count_request w))
  ∨ (answered w a b 0 ticker = Val (answered_rows w a b 0 ticker)
     ∧ fetch_series (ticker :: tickers) a b acc w =
       match answered_rows w a b 0 ticker with
       | [] => (Abort (NoDataReturned ticker), count_request w)
       | df =>
           match window_series df a b with
           | [] => (Abort (NoDataInWindow ticker), count_request w)
           | series =>
               fetch_series tickers a b (dict_set ticker series acc) (count_request w)
           end
       end).
Proof.
  rewrite fetch_series_cons. unfold answered, answered_rows. rewrite Nat.add_0_r.
  destruct (historic_rows_cases (provider w (requests w) ticker) (a - 7) b)
    as [(_ & _ & ->)|(_ & e & ->)]; [right|left; eauto].
  split; [done|]. by destruct (kept_rows _ _ _).
Qed.

Lemma fetch_series_frame tickers a b acc w r w' :
  fetch_series tickers a b acc w = (r, w') →
  only_requests w w' ∧ r ≠ Ret.
Proof.
  revert acc w. induction tickers as [|t ts IH]; intros acc w.
  - intros [= <- <-]. split; [apply only_requests_refl|done].
  - destruct (fetch_series_step t ts a b acc w) as [(e & _ & ->)|[_ ->]].
    { intros [= <- <-]. split; [apply only_requests_count|done]. }
    destruct (answered_rows w a b 0 t) as [|x df].
    { intros [= <- <-]. split; [apply only_requests_count|done]. }
    destruct (window_series _ _ _) as [|y series].
    { intros [= <- <-]. split; [apply only_requests_count|done]. }
    intros Hrun. destruct (IH _ _ Hrun) as (Hreq & ?).
    split; [|done]. eapply only_requests_trans; [apply only_requests_count|done].
Qed.

Lemma align_not_Ret tickers (sm : list (string * list (Z * F))) : align tickers sm ≠ Ret.
Proof.
  unfold align. destruct sm; [done|]. destruct (inner_join _); [done|].
  by case_decide.
Qed.

Lemma fetch_prices_frame tickers a b w r w' :
  fetch_prices tickers a b w = (r, w') → only_requests w w' ∧ r ≠ Ret.
Proof.
  unfold fetch_prices. intros [(sm & w1 & Hs & Ha)|[[Hs ->]|(e & Hs & ->)]]%bind_inv.
  - apply fetch_series_frame in Hs as (? & _). injection Ha as <- <-.
    split; [done|apply align_not_Ret].
  - by apply fetch_series_frame in Hs as (_ & ?).
  - by apply fetch_series_frame in Hs as (? & _).
Qed.

End Runs.

(** ** The phases of [main] *)

Section MainRuns.
Context {F : Type} `{!Numeric F}.
Implicit Types (w : @world F).

Lemma load_api_key_read w r w' :
  load_api_key w = (r, w') → w' = w ∧ r ≠ Ret.
Proof.
  unfold load_api_key.
  destruct (env_api_key w) as [k|]; [case_decide|];
    destruct (api_key_file w); intros [= <- <-]; done.
Qed.

Lemma load_rebalance_date_read w r w' :
  load_rebalance_date w = (r, w') → w' = w ∧ r ≠ Ret.
Proof.
  unfold load_rebalance_date.
  destruct (meta_file w) as [[d|]|]; intros [= <- <-]; done.
Qed.

Lemma load_base_portfolio_read w r w' :
  load_base_portfolio w = (r, w') → w' = w ∧ r ≠ Ret.
Proof.
  unfold load_base_portfolio.
  destruct (base_file w) as [[|df]|]; [|destruct (num_le0 _)|];
    intros [= <- <-]; done.
Qed.

Lemma min_from_not_Ret best (l : list (list (@nv_row F))) : min_from best l ≠ Ret.
Proof.
  revert best. induction l as [|df l IH]; intros best; [done|].
  cbn [min_from]. unfold key_lt.
  destruct (date_min df), (date_min best); cbn; try done; apply IH.
Qed.

Lemma load_existing_read w r w' :
  load_existing w = (r, w') → w' = w ∧ r ≠ Ret.
Proof.
  unfold load_existing.
  destruct (load_net_values <$> _) as [|df loaded]; intros [= <- <-]; [done|].
  split; [done|]. pose proof (min_from_not_Ret df loaded).
  by destruct (min_from df loaded).
Qed.

Lemma compute_net_values_not_Ret frame base_weights start_value :
  compute_net_values frame base_weights start_value ≠ (Ret : result (list (@nv_row F))).
Proof.
  unfold compute_net_values. destruct (rows frame) as [|[d p] rest]; [done|].
  by destruct (sum_rows _).
Qed.

Lemma update_live_weights_not_Ret base_portfolio frame :
  update_live_weights base_portfolio frame ≠ (Ret : result (list (@base_row F))).
Proof.
  unfold update_live_weights. destruct (rows frame) as [|[d p] rest]; [done|].
  by destruct (last _) as [[? ?]|].
Qed.

(** What a run of the live-weight refresh can have done. *)
Lemma refresh_live_weights_inv rebalance_date base_portfolio today w r w' :
  refresh_live_weights rebalance_date base_portfolio today w = (r, w') →
  match r with
  | Val _ =>
      ∃ w1 frame live,
        fetch_prices (tickers_of base_portfolio) rebalance_date today w = (Val frame, w1)
        ∧ update_live_weights base_portfolio frame = Val live
        ∧ w' = set_portfolio live w1
  | Ret => False
  | Abort e => only_requests w w'
  end.
Proof.
  unfold refresh_live_weights.
  intros [(frame & w1 & Hf & Hk)|[[Hf ->]|(e & Hf & ->)]]%bind_inv.
  - pose proof (update_live_weights_not_Ret base_portfolio frame) as Hnr.
    apply bind_inv in Hk as [(live & w2 & Hl & Hw)|[[Hl ->]|(e & Hl & ->)]].
    + injection Hl as Hl <-. injection Hw as <- <-. eauto 10.
    + by injection Hl as Hl _.
    + injection Hl as Hl <-. by apply fetch_prices_frame in Hf as [? _].
  - by apply fetch_prices_frame in Hf as [_ ?].
  - by apply fetch_prices_frame in Hf as [? _].
Qed.

(** What a run of the history update can have done. *)
Lemma update_history_inv rebalance_date base_portfolio existing_df today w r w' :
  update_history rebalance_date base_portfolio existing_df today w = (r, w') →
  match r with
  | Val _ =>
      ∃ w1 frame segment,
        (∃ existing last_row,
            existing_df = Some existing ∧ last existing = Some last_row
            ∧ nv_date last_row < today
            ∧ fetch_prices (tickers_of base_portfolio)
                (Z.max rebalance_date (nv_date last_row)) today w = (Val frame, w1)
            ∧ compute_net_values frame (weight_frac <$> base_portfolio)
                (net_value last_row) = Val segment
            ∧ w' = set_net_values (existing ++ tail segment) w1)
        ∨ (existing_df ≫= last = None
            ∧ rebalance_date < today
            ∧ fetch_prices (tickers_of base_portfolio) rebalance_date today w = (Val frame, w1)
            ∧ compute_net_values frame (weight_frac <$> base_portfolio) num_one = Val segment
            ∧ w' = set_net_values segment w1)
  | Ret =>
      w' = w ∧ ∃ existing last_row,
        existing_df = Some existing ∧ last existing = Some last_row
        ∧ today ≤ nv_date last_row
  | Abort e => only_requests w w'
  end.
Proof.
  unfold update_history.
  destruct existing_df as [existing|]; cbn [mbind option_bind];
    [destruct (last existing) as [last_row|] eqn:Hlast|].
  - case_decide as Htoday.
    { intros [= <- <-]. split; [done|]. eauto. }
    intros [(frame & w1 & Hf & Hk)|[[Hf ->]|(e & Hf & ->)]]%bind_inv.
    + pose proof (compute_net_values_not_Ret frame (weight_frac <$> base_portfolio)
                    (net_value last_row)) as Hnr.
      apply bind_inv in Hk as [(seg & w2 & Hl & Hw)|[[Hl ->]|(e & Hl & ->)]].
      * injection Hl as Hl <-. injection Hw as <- <-.
        exists w1, frame, seg. left. exists existing, last_row.
        repeat split; try done. lia.
      * by injection Hl as Hl _.
      * injection Hl as Hl <-. by apply fetch_prices_frame in Hf as [? _].
    + by apply fetch_prices_frame in Hf as [_ ?].
    + by apply fetch_prices_frame in Hf as [? _].
  - case_decide as Htoday.
    { intros [= <- <-]. apply only_requests_refl. }
    intros [(frame & w1 & Hf & Hk)|[[Hf ->]|(e & Hf & ->)]]%bind_inv.
    + pose proof (compute_net_values_not_Ret frame (weight_frac <$> base_portfolio)
                    num_one) as Hnr.
      apply bind_inv in Hk as [(seg & w2 & Hl & Hw)|[[Hl ->]|(e & Hl & ->)]].
      * injection Hl as Hl <-. injection Hw as <- <-.
        exists w1, frame, seg. right. repeat split; try done. lia.
      * by injection Hl as Hl _.
      * injection Hl as Hl <-. by apply fetch_prices_frame in Hf as [? _].
    + by apply fetch_prices_frame in Hf as [_ ?].
    + by apply fetch_prices_frame in Hf as [? _].
  - case_decide as Htoday.
    { intros [= <- <-]. apply only_requests_refl. }
    intros [(frame & w1 & Hf & Hk)|[[Hf ->]|(e & Hf & ->)]]%bind_inv.
    + pose proof (compute_net_values_not_Ret frame (weight_frac <$> base_portfolio)
                    num_one) as Hnr.
      apply bind_inv in Hk as [(seg & w2 & Hl & Hw)|[[Hl ->]|(e & Hl & ->)]].
      * injection Hl as Hl <-. injection Hw as <- <-.
        exists w1, frame, seg. right. repeat split; try done. lia.
      * by injection Hl as Hl _.
      * injection Hl as Hl <-. by apply fetch_prices_frame in Hf as [? _].
    + by apply fetch_prices_frame in Hf as [_ ?].
    + by apply fetch_prices_frame in Hf as [? _].
Qed.

(** A run of [main] is its reads, then the history update, then the refresh
    of the live weights. *)
Lemma main_inv w r w' :
  main w = (r, w') →
  (w' = w ∧ ∃ e, r = Abort e)
  ∨ ∃ rebalance_date base_portfolio existing_df,
      prelude w rebalance_date base_portfolio existing_df
      ∧ ((update_history rebalance_date base_portfolio existing_df (clock w) w = (r, w')
          ∧ r ≠ Val tt)
         ∨ ∃ w1,
             update_history rebalance_date base_portfolio existing_df (clock w) w
             = (Val tt, w1)
             ∧ refresh_live_weights rebalance_date base_portfolio (clock w) w1 = (r, w')).
Proof.
  unfold main.
  intros [(key & w1 & Hkey & Hk)|[[Hkey ->]|(e & Hkey & ->)]]%bind_inv;
    destruct (load_api_key_read _ _ _ Hkey) as [-> ?]; [|done|left; eauto].
  apply bind_inv in Hk as [(rb & w1 & Hrb & Hk)|[[Hrb ->]|(e & Hrb & ->)]];
    destruct (load_rebalance_date_read _ _ _ Hrb) as [-> ?]; [|done|left; eauto].
  apply bind_inv in Hk as [(base & w1 & Hbase & Hk)|[[Hbase ->]|(e & Hbase & ->)]];
    destruct (load_base_portfolio_read _ _ _ Hbase) as [-> ?]; [|done|left; eauto].
  apply bind_inv in Hk as [(ex & w1 & Hex & Hk)|[[Hex ->]|(e & Hex & ->)]];
    destruct (load_existing_read _ _ _ Hex) as [-> ?]; [|done|left; eauto].
  right. exists rb, base, ex. split; [by unfold prelude; eauto|].
  apply bind_inv in Hk as [(today & w1 & Ht & Hk)|[[Ht ->]|(e & Ht & ->)]];
    [|done|done].
  injection Ht as <- <-.
  apply bind_inv in Hk as [([] & w1 & Hu & Hk)|[[Hu ->]|(e & Hu & ->)]]; eauto.
Qed.

End MainRuns.

(** ** What [fetch_prices] returns *)

Section FetchResults.
Context {F : Type} `{!Numeric F}.
Implicit Types (w : @world F).

Lemma answered_rows_count w a b i t :
  answered_rows (count_request w) a b i t = answered_rows w a b (S i) t.
Proof.
  unfold answered_rows. cbn. by replace (S (requests w + i)) with (requests w + S i)%nat by lia.
Qed.

Lemma answered_series_count w a b i t :
  answered_series (count_request w) a b i t = answered_series w a b (S i) t.
Proof. unfold answered_series. by rewrite answered_rows_count. Qed.

Lemma answered_count w a b i t :
  answered (count_request w) a b i t = answered w a b (S i) t.
Proof.
  unfold answered. cbn. by replace (S (requests w + i)) with (requests w + S i)%nat by lia.
Qed.

Lemma answered_Val w a b i t rows :
  answered w a b i t = Val rows → rows = answered_rows w a b i t.
Proof. by intros [-> _]%historic_rows_Val. Qed.

(** The loop stops at the first ticker whose call raises, with what it
    raised. *)
Lemma fetch_series_first_raise tickers a b acc w i t e :
  tickers !! i = Some t →
  (∀ j t', (j < i)%nat → tickers !! j = Some t' →
           (∃ rows, answered w a b j t' = Val rows) ∧ answered_series w a b j t' ≠ []) →
  answered w a b i t = Abort e →
  ∃ w', fetch_series tickers a b acc w = (Abort e, w').
Proof.
  revert acc w i. induction tickers as [|t0 ts IH]; intros acc w i Hi Hbefore Hraise; [done|].
  destruct (fetch_series_step t0 ts a b acc w) as [(e' & Hans & ->)|[Hans ->]].
  - destruct i as [|i]; cbn in Hi.
    + injection Hi as ->. rewrite Hans in Hraise. injection Hraise as <-. eauto.
    + destruct (Hbefore 0%nat t0 ltac:(lia) eq_refl) as [[rows Hrows] _]. congruence.
  - destruct i as [|i]; cbn in Hi.
    + injection Hi as ->. congruence.
    + destruct (Hbefore 0%nat t0 ltac:(lia) eq_refl) as [_ H0].
      unfold answered_series in H0.
      destruct (answered_rows w a b 0 t0) as [|x df]; [done|].
      destruct (window_series (x :: df) a b) as [|y s]; [done|].
      apply (IH _ _ i); [done| |by rewrite answered_count].
      intros j t' Hj Ht'. rewrite answered_count, answered_series_count.
      apply Hbefore; [lia|done].
Qed.

(** The loop stops at the first ticker whose series is empty. *)
Lemma fetch_series_first_empty tickers a b acc w i t :
  tickers !! i = Some t →
  (∀ j t', (j < i)%nat → tickers !! j = Some t' →
           (∃ rows, answered w a b j t' = Val rows) ∧ answered_series w a b j t' ≠ []) →
  (∃ rows, answered w a b i t = Val rows) →
  answered_series w a b i t = [] →
  ∃ e w', fetch_series tickers a b acc w = (Abort e, w')
          ∧ (e = NoDataReturned t ∨ e = NoDataInWindow t).
Proof.
  revert acc w i.
  induction tickers as [|t0 ts IH]; intros acc w i Hi Hbefore [rows Hrows] Hempty; [done|].
  destruct (fetch_series_step t0 ts a b acc w) as [(e' & Hans & ->)|[Hans ->]].
  - destruct i as [|i]; cbn in Hi.
    + injection Hi as ->. congruence.
    + destruct (Hbefore 0%nat t0 ltac:(lia) eq_refl) as [[rows' Hrows'] _]. congruence.
  - destruct i as [|i]; cbn in Hi.
    + injection Hi as ->. unfold answered_series in Hempty.
      destruct (answered_rows w a b 0 t) as [|x df]; [eauto|].
      rewrite Hempty. eauto.
    + destruct (Hbefore 0%nat t0 ltac:(lia) eq_refl) as [_ H0].
      unfold answered_series in H0.
      destruct (answered_rows w a b 0 t0) as [|x df]; [done|].
      destruct (window_series (x :: df) a b) as [|y s]; [done|].
      apply (IH _ _ i); [done| |by rewrite answered_count; eauto
                        |by rewrite answered_series_count].
      intros j t' Hj Ht'. rewrite answered_count, answered_series_count.
      apply Hbefore; [lia|done].
Qed.

(** When the loop comes to its end, every call returned, and every ticker
    had a series. *)
Lemma fetch_series_answered tickers a b acc w sm w' :
  fetch_series tickers a b acc w = (Val sm, w') →
  ∀ i t, tickers !! i = Some t →
         answered w a b i t = Val (answered_rows w a b i t)
         ∧ answered_series w a b i t ≠ [].
Proof.
  revert acc w. induction tickers as [|t0 ts IH]; intros acc w Hrun i t Hi; [done|].
  destruct (fetch_series_step t0 ts a b acc w) as [(e' & Hans & Hstep)|[Hans Hstep]];
    rewrite Hstep in Hrun; [done|].
  destruct (answered_rows w a b 0 t0) as [|x df] eqn:Hrows; [done|].
  destruct (window_series (x :: df) a b) as [|y s] eqn:Hser; [done|].
  destruct i as [|i]; cbn in Hi.
  - injection Hi as <-. split; [by rewrite Hans, Hrows|].
    unfold answered_series. by rewrite Hrows, Hser.
  - rewrite <- answered_count, <- answered_rows_count, <- answered_series_count.
    by eapply IH.
Qed.

Lemma align_Val_rows tickers (sm : list (string * list (Z * F))) frame :
  align tickers sm = Val frame →
  sm ≠ [] ∧ columns frame = tickers ∧ rows frame = inner_join (sm.*2)
  ∧ rows frame ≠ [] ∧ length tickers = length sm.
Proof.
  unfold align. destruct sm as [|x sm]; [done|].
  destruct (inner_join _) as [|r fr] eqn:Hj; [done|].
  case_decide; [|done]. by intros [= <-].
Qed.

Lemma fetch_prices_Val tickers a b w frame w' :
  fetch_prices tickers a b w = (Val frame, w') →
  ∃ sm w1, fetch_series tickers a b [] w = (Val sm, w1) ∧ w' = w1
           ∧ align tickers sm = Val frame.
Proof.
  unfold fetch_prices.
  intros [(sm & w1 & Hs & Ha)|[[Hs [=]]|(e & Hs & [=])]]%bind_inv.
  injection Ha as Ha <-. eauto.
Qed.

End FetchResults.

Section FetchAborts.
Context {F : Type} `{!Numeric F}.
Implicit Types (w : @world F).

(** C10, amended: [get_daily_historic_data] answers every failure of the
    provider that its [try] block sees (no response or an HTTP error, a body
    that is no JSON, a body without the time series, as the rate-limit note
    and the error message for an unknown symbol are) by returning the empty
    table.  A time series is read after the [try] block: when it is no
    object, when one of its keys is no date, or when a bar dated in the
    window asked for does not convert, the call raises the exception to its
    caller; when every key is a date and every bar of the window converts,
    it returns their rows.  [fetch_prices] does not catch
    what a call raises: the run ends with it.  It stops at the first ticker
    whose call returns and whose series is empty, be it that the table came
    back empty or that no row of it lies in the window, with an error that
    names the ticker; so when it returns a table, every call returned,
    every ticker had a series with a row in the window, and the table has a
    row. *)
Theorem empty_answers_abort :
  (∀ (r : @response F) ticker a b w,
     provider w (requests w) ticker = r →
     r = HttpFailure ∨ r = BodyNotJson ∨ (∃ note msg, r = NoTimeSeries note msg) →
     get_daily_historic_data ticker a b w = (Val [], count_request w))
  ∧ (∀ (r : @response F) ticker a b w,
       provider w (requests w) ticker = r →
       (bad_bar_in r a b ∨ series_unreadable r →
        ∃ e, get_daily_historic_data ticker a b w
             = (Abort (Uncaught e), count_request w))
       ∧ (¬ bad_bar_in r a b → ¬ series_unreadable r →
          get_daily_historic_data ticker a b w
          = (Val (kept_rows r a b), count_request w)))
  ∧ (∀ tickers a b w i t,
       tickers !! i = Some t →
       (∀ j t', (j < i)%nat → tickers !! j = Some t' →
                (∃ rows, answered w a b j t' = Val rows)
                ∧ answered_series w a b j t' ≠ []) →
       (∀ e, answered w a b i t = Abort e →
             ∃ w', fetch_prices tickers a b w = (Abort e, w'))
       ∧ ((∃ rows, answered w a b i t = Val rows) →
          answered_series w a b i t = [] →
          ∃ e w', fetch_prices tickers a b w = (Abort e, w')
                  ∧ (e = NoDataReturned t ∨ e = NoDataInWindow t)))
  ∧ (∀ tickers a b w frame w',
       fetch_prices tickers a b w = (Val frame, w') →
       rows frame ≠ []
       ∧ ∀ i t, tickers !! i = Some t →
                answered w a b i t = Val (answered_rows w a b i t)
                ∧ answered_series w a b i t ≠ []).
Proof.
  split; [|split; [|split]].
  - intros r ticker a b w Hr Hfail. rewrite get_daily_historic_data_run, Hr.
    by destruct Hfail as [->|[->|(note & msg & ->)]].
  - intros r ticker a b w Hr. rewrite get_daily_historic_data_run, Hr.
    destruct (historic_rows_cases r a b) as [(Hgood & Hobj & ->)|(Hbad & e & ->)].
    + split; [by intros [?|?]|done].
    + split; [eauto|]. by destruct Hbad.
  - intros tickers a b w i t Hi Hbefore. split.
    + intros e Hraise.
      destruct (fetch_series_first_raise tickers a b [] w i t e Hi Hbefore Hraise)
        as (w' & Hrun).
      exists w'. unfold fetch_prices. by rewrite (bind_Abort _ _ _ _ _ Hrun).
    + intros Hrows Hempty.
      destruct (fetch_series_first_empty tickers a b [] w i t Hi Hbefore Hrows Hempty)
        as (e & w' & Hrun & He).
      exists e, w'. split; [|done]. unfold fetch_prices.
      by rewrite (bind_Abort _ _ _ _ _ Hrun).
  - intros tickers a b w frame w' (sm & w1 & Hs & -> & Ha)%fetch_prices_Val.
    apply align_Val_rows in Ha as (_ & _ & _ & Hne & _).
    split; [done|]. by eapply fetch_series_answered.
Qed.

End FetchAborts.

Lemma empty_answers_abort_witness :
  (get_daily_historic_data "A" 13 22 (with_requests 1 Scenario.rate_limited)
   = (Val [], count_request (with_requests 1 Scenario.rate_limited)))
  ∧ (∃ e, get_daily_historic_data "A" 13 22 Cases.malformed
          = (Abort (Uncaught e), count_request Cases.malformed))
  ∧ (∃ e w',
       fetch_prices ["A"] 20 22 (with_requests 1 Scenario.rate_limited) = (Abort e, w')
       ∧ (e = NoDataReturned "A" ∨ e = NoDataInWindow "A"))
  ∧ (∃ frame w',
       fetch_prices ["A"] 20 22 Scenario.rate_limited = (Val frame, w')
       ∧ rows frame ≠ []).
Proof.
  split; [|split; [|split]].
  - apply (proj1 empty_answers_abort (NoTimeSeries (Some "rate limit reached") None));
      [reflexivity|]. right; right. eauto.
  - apply (proj1 (proj1 (proj2 empty_answers_abort) _ "A" 13 22 Cases.malformed eq_refl)).
    left. exists Cases.bars_malformed, 21, "ValueError: could not convert string to float".
    split; [reflexivity|]. split; [lia|]. split; [lia|reflexivity].
  - apply (proj2 (proj1 (proj2 (proj2 empty_answers_abort)) ["A"] 20 22 _ 0%nat "A"
                    eq_refl ltac:(intros j t' Hj; lia))).
    + eexists. reflexivity.
    + reflexivity.
  - assert (Hr : ∃ frame, (fetch_prices ["A"] 20 22 Scenario.rate_limited).1 = Val frame)
      by (eexists; vm_compute; reflexivity).
    destruct Hr as [frame Hr].
    destruct (fetch_prices ["A"] 20 22 Scenario.rate_limited) as [r w'] eqn:Hrun.
    cbn [fst] in Hr. subst r. exists frame, w'. split; [reflexivity|].
    exact (proj1 (proj2 (proj2 (proj2 empty_answers_abort)) _ _ _ _ _ _ Hrun)).
Defined.

(** C10 as stated fails: the provider answers with a time series whose bar
    of day 21 holds text that is no number.  The call does not return the
    empty table: it raises [ValueError] to its caller, and the run ends with
    that exception, not with an exit that names the ticker.  So it does for
    a time series with a key that is no date. *)
Lemma malformed_bar_raises_counterexample :
  get_daily_historic_data "A" 13 22 Cases.malformed
  = (Abort (Uncaught "ValueError: could not convert string to float"),
     count_request Cases.malformed)
  ∧ (∃ e w',
       main Cases.malformed = (Abort (Uncaught e), w')
       ∧ is_fetch_failure (Uncaught e) = false)
  ∧ ∃ e, get_daily_historic_data "A" 13 22 Cases.stray_key
         = (Abort (Uncaught e), count_request Cases.stray_key).
Proof.
  split; [reflexivity|]. split; [|by eexists].
  assert (Hr : (main Cases.malformed).1
               = Abort (Uncaught "ValueError: could not convert string to float"))
    by (vm_compute; reflexivity).
  destruct (main Cases.malformed) as [r w']. cbn [fst] in Hr. subst r.
  by eexists _, w'.
Qed.

(** ** Ascending dates *)

Section SortedFrames.
Context {F : Type} `{!Numeric F}.
Implicit Types (w : @world F).

Lemma window_series_ok (r : @response F) lo a b :
  series_ok a b (window_series (kept_rows r lo b) a b).
Proof.
  unfold series_ok. rewrite window_series_dates. split.
  - apply strict_filter, kept_rows_sorted.
  - apply Forall_forall. by intros d [? _]%list_elem_of_filter.
Qed.

Lemma dict_set_values {V} (P : V → Prop) k v (d : list (string * V)) :
  Forall P (d.*2) → P v → Forall P ((dict_set k v d).*2).
Proof.
  induction d as [|[k' v'] d IH]; intros Hd Hv; cbn.
  - by constructor.
  - apply Forall_cons in Hd as [? ?]. case_decide; cbn; constructor; auto.
Qed.

Lemma fetch_series_ok tickers a b acc w sm w' :
  Forall (series_ok a b) (acc.*2) →
  fetch_series tickers a b acc w = (Val sm, w') →
  Forall (series_ok a b) (sm.*2).
Proof.
  revert acc w. induction tickers as [|t ts IH]; intros acc w Hacc.
  - by intros [= <- <-].
  - destruct (fetch_series_step t ts a b acc w) as [(e & _ & ->)|[_ ->]]; [done|].
    unfold answered_rows.
    destruct (kept_rows _ _ _) as [|x df] eqn:Hrows; [done|].
    destruct (window_series (x :: df) a b) as [|y s] eqn:Hser; [done|].
    apply IH, dict_set_values; [done|].
    rewrite <- Hser, <- Hrows. apply window_series_ok.
Qed.

Lemma inner_join_in_window (ss : list (list (Z * F))) a b :
  Forall (series_ok a b) ss → Forall (in_window a b) ((inner_join ss).*1).
Proof.
  intros Hss. apply Forall_forall. intros d Hd.
  destruct ss as [|s0 ss].
  { rewrite inner_join_dates in Hd. apply sort_dates_elem in Hd.
    by apply elem_of_nil in Hd. }
  rewrite elem_of_inner_join_dates in Hd by done.
  apply Forall_cons in Hss as [[_ Hs0] _]. rewrite Forall_forall in Hs0.
  apply Hs0, Hd. by left.
Qed.

(** The table [fetch_prices] returns has at least one row; its dates ascend
    and lie in the window asked for. *)
Lemma fetch_prices_dates tickers a b w frame w' :
  fetch_prices tickers a b w = (Val frame, w') →
  rows frame ≠ []
  ∧ StronglySorted Z.lt ((rows frame).*1)
  ∧ Forall (in_window a b) ((rows frame).*1).
Proof.
  intros (sm & w1 & Hs & -> & Ha)%fetch_prices_Val.
  apply align_Val_rows in Ha as (_ & _ & -> & Hne & _).
  apply fetch_series_ok in Hs; [|by constructor].
  split; [done|]. split.
  - apply inner_join_strict. eapply Forall_impl; [done|].
    intros s [Hsorted _]. by apply strict_nodup.
  - by apply inner_join_in_window.
Qed.

(** ** Loading a history *)

Lemma elem_of_drop_duplicates (df : list (@nv_row F)) r :
  r ∈ drop_duplicates_keep_last df → r ∈ df.
Proof.
  induction df as [|r0 df IH]; cbn; [done|].
  case_decide.
  - intros. right. auto.
  - intros [->|?]%elem_of_cons; [left|right; auto].
Qed.

Lemma drop_duplicates_strict (df : list (@nv_row F)) :
  StronglySorted date_le df →
  StronglySorted Z.lt (nv_date <$> drop_duplicates_keep_last df).
Proof.
  induction 1 as [|r df Hdf IH Hr]; cbn; [constructor|].
  case_decide as Hin; [done|].
  rewrite fmap_cons. constructor; [done|].
  apply Forall_forall. intros d (r' & -> & Hr')%list_elem_of_fmap.
  apply elem_of_drop_duplicates in Hr'.
  rewrite Forall_forall in Hr. specialize (Hr r' Hr'). unfold date_le in Hr.
  assert (nv_date r ≠ nv_date r').
  { intros Heq. apply Hin. rewrite Heq. by apply list_elem_of_fmap_2. }
  lia.
Qed.

Lemma insert_by_date_perm r (df : list (@nv_row F)) :
  insert_by_date r df ≡ₚ r :: df.
Proof.
  induction df as [|r' df IH]; cbn; [done|].
  case_decide; [done|]. rewrite IH. apply Permutation_swap.
Qed.

Lemma sort_values_perm (df : list (@nv_row F)) : sort_values df ≡ₚ df.
Proof.
  induction df as [|r df IH]; cbn; [done|].
  by rewrite insert_by_date_perm, IH.
Qed.

Lemma insert_by_date_sorted r (df : list (@nv_row F)) :
  StronglySorted date_le df → StronglySorted date_le (insert_by_date r df).
Proof.
  induction 1 as [|r' df Hdf IH Hr']; cbn; [by repeat constructor|].
  case_decide as Hle.
  - constructor; [by constructor|]. constructor; [done|].
    eapply Forall_impl; [done|]. intros r'' ?. unfold date_le in *. lia.
  - constructor; [done|]. rewrite insert_by_date_perm.
    constructor; [unfold date_le; lia|done].
Qed.

Lemma sort_values_sorted (df : list (@nv_row F)) :
  StronglySorted date_le (sort_values df).
Proof.
  induction df as [|r df IH]; cbn; [constructor|]. by apply insert_by_date_sorted.
Qed.

(** Rows that are in order already stay as they are. *)
Lemma sort_values_id (df : list (@nv_row F)) :
  StronglySorted date_le df → sort_values df = df.
Proof.
  induction 1 as [|r df Hdf IH Hr]; [done|].
  change (insert_by_date r (sort_values df) = r :: df). rewrite IH.
  destruct df as [|r' df]; [done|]. cbn.
  apply Forall_cons in Hr as [Hr _]. by rewrite decide_True.
Qed.

(** A loaded history has strictly ascending dates. *)
Lemma load_net_values_strict (csv : list (@nv_row F)) :
  StronglySorted Z.lt (nv_date <$> load_net_values csv).
Proof.
  unfold load_net_values. apply drop_duplicates_strict, sort_values_sorted.
Qed.

Lemma strict_dates_sorted (df : list (@nv_row F)) :
  StronglySorted Z.lt (nv_date <$> df) → StronglySorted date_le df.
Proof.
  induction df as [|r df IH]; [constructor|].
  rewrite fmap_cons. intros [Hdf Hr]%StronglySorted_inv.
  constructor; [auto|]. apply Forall_forall. intros r' Hr'.
  rewrite Forall_forall in Hr. unfold date_le.
  specialize (Hr (nv_date r') (list_elem_of_fmap_2 _ _ _ Hr')). lia.
Qed.

Lemma drop_duplicates_id (df : list (@nv_row F)) :
  NoDup (nv_date <$> df) → drop_duplicates_keep_last df = df.
Proof.
  induction df as [|r df IH]; [done|].
  rewrite fmap_cons. intros [Hnotin Hnd]%NoDup_cons. cbn.
  rewrite decide_False by done. f_equal. auto.
Qed.

(** Loading a history whose dates already ascend strictly changes nothing. *)
Lemma load_net_values_id (df : list (@nv_row F)) :
  StronglySorted Z.lt (nv_date <$> df) → load_net_values df = df.
Proof.
  intros Hs. unfold load_net_values.
  rewrite sort_values_id by (by apply strict_dates_sorted).
  by apply drop_duplicates_id, strict_nodup.
Qed.

Lemma date_min_sorted (df : list (@nv_row F)) :
  StronglySorted Z.lt (nv_date <$> df) → date_min df = nv_date <$> head df.
Proof.
  induction df as [|r df IH]; [done|].
  rewrite fmap_cons. intros [Hdf Hr]%StronglySorted_inv.
  cbn [date_min foldr]. fold (date_min df). rewrite (IH Hdf).
  destruct df as [|r' df]; [done|]. cbn.
  apply Forall_cons in Hr as [Hr _]. f_equal. lia.
Qed.

Lemma strict_last_max (l : list Z) x :
  StronglySorted Z.lt l → last l = Some x → Forall (fun y => y ≤ x) l.
Proof.
  induction 1 as [|y l Hl IH Hy]; [done|].
  destruct l as [|z l].
  - intros [= ->]. by repeat constructor.
  - rewrite last_cons_cons. intros Hlast. specialize (IH Hlast).
    constructor; [|done].
    rewrite Forall_forall in IH, Hy.
    assert (x ∈ z :: l) by (by apply last_Some_elem_of).
    specialize (Hy x ltac:(done)). lia.
Qed.

Lemma min_from_elem best (l : list (list (@nv_row F))) x :
  min_from best l = Val x → x = best ∨ x ∈ l.
Proof.
  revert best. induction l as [|df l IH]; intros best; cbn.
  - intros [= <-]. by left.
  - destruct (key_lt _ _) as [lt| |e]; cbn; [|done..].
    intros [->|?]%IH; [|right; by right].
    destruct lt; [right; by left|by left].
Qed.

(** The history [main] starts from is one of the loaded candidates. *)
Lemma load_existing_strict w existing w' :
  load_existing w = (Val (Some existing), w') →
  StronglySorted Z.lt (nv_date <$> existing).
Proof.
  unfold load_existing.
  destruct (load_net_values <$> _) as [|df loaded] eqn:Hl; [done|].
  destruct (min_from df loaded) as [x| |e] eqn:Hmin; cbn; [|done..].
  intros [= <- <-].
  assert (Hin : x ∈ load_net_values <$> option_list (net_values_file w) ++ option_list (legacy_file w)).
  { rewrite Hl. apply min_from_elem in Hmin as [->|?]; [by left|by right]. }
  apply list_elem_of_fmap in Hin as (csv & -> & _). apply load_net_values_strict.
Qed.

End SortedFrames.

(** ** The merge of the history *)

Section Merge.
Context {F : Type} `{!Numeric F}.
Implicit Types (w : @world F).

Lemma refresh_keeps_history rebalance_date base_portfolio today w r w' :
  refresh_live_weights rebalance_date base_portfolio today w = (r, w') →
  net_values_file w' = net_values_file w ∧ legacy_file w' = legacy_file w.
Proof.
  intros Hr. pose proof (refresh_live_weights_inv _ _ _ _ _ _ Hr) as Hinv.
  destruct r as [[]| |e]; [|done|].
  - destruct Hinv as (w1 & frame & live & Hf & _ & ->).
    apply fetch_prices_frame in Hf as [Hreq _].
    by apply only_requests_files in Hreq as (? & ? & _).
  - by apply only_requests_files in Hinv as (? & ? & _).
Qed.

(** The rows appended to a history: their dates ascend and come after the
    last date of the history. *)
Lemma appended_rows_after (existing : list (@nv_row F)) last_row
    rebalance_date today tickers w frame w1 base_weights segment :
  StronglySorted Z.lt (nv_date <$> existing) →
  last existing = Some last_row →
  fetch_prices tickers (Z.max rebalance_date (nv_date last_row)) today w = (Val frame, w1) →
  compute_net_values frame base_weights (net_value last_row) = Val segment →
  StronglySorted Z.lt (nv_date <$> existing ++ tail segment)
  ∧ Forall (fun r => nv_date last_row < nv_date r) (tail segment)
  ∧ ∀ r_old r_new, r_old ∈ existing → r_new ∈ tail segment →
                   nv_date r_old < nv_date r_new.
Proof.
  intros Hex Hlast Hf Hc.
  apply fetch_prices_dates in Hf as (Hne & Hsorted & Hwin).
  apply compute_net_values_dates in Hc. rewrite <- Hc in Hsorted, Hwin.
  assert (Hold : Forall (fun d => d ≤ nv_date last_row) (nv_date <$> existing)).
  { apply strict_last_max; [done|]. by rewrite fmap_last, Hlast. }
  assert (Hnew : Forall (fun r => nv_date last_row < nv_date r) (tail segment)).
  { destruct segment as [|r0 seg]; [constructor|]. cbn [tail].
    rewrite fmap_cons in Hsorted, Hwin.
    apply StronglySorted_inv in Hsorted as [_ Hr0].
    apply Forall_cons in Hwin as [[Hlo _] _].
    apply Forall_forall. intros r Hr. rewrite Forall_forall in Hr0.
    specialize (Hr0 (nv_date r) (list_elem_of_fmap_2 _ _ _ Hr)). lia. }
  assert (Hcross : ∀ r_old r_new, r_old ∈ existing → r_new ∈ tail segment →
                                   nv_date r_old < nv_date r_new).
  { intros r_old r_new Ho Hn. rewrite Forall_forall in Hold. rewrite Forall_forall in Hnew.
    specialize (Hold (nv_date r_old) (list_elem_of_fmap_2 _ _ _ Ho)).
    specialize (Hnew r_new Hn). lia. }
  split; [|done]. rewrite fmap_app. apply StronglySorted_app_2; [|done|].
  - intros d1 d2 (r1 & -> & H1)%list_elem_of_fmap (r2 & -> & H2)%list_elem_of_fmap. auto.
  - rewrite fmap_tail. destruct (nv_date <$> segment) as [|d0 ds]; [constructor|].
    by apply StronglySorted_inv in Hsorted as [? _].
Qed.

Lemma prelude_unique w rb base ex rb' base' ex' :
  prelude w rb base ex → prelude w rb' base' ex' →
  rb' = rb ∧ base' = base ∧ ex' = ex.
Proof.
  intros (_ & Hrb & Hbase & Hex) (_ & Hrb' & Hbase' & Hex').
  rewrite Hrb in Hrb'. rewrite Hbase in Hbase'. rewrite Hex in Hex'.
  by injection Hrb' as <-; injection Hbase' as <-; injection Hex' as <-.
Qed.

(** The net-value record after the history update, by the history it
    started from and by what the fetch and the computation gave. *)
Lemma update_history_file rb base ex today w r w' :
  update_history rb base ex today w = (r, w') →
  match ex ≫= last with
  | Some last_row =>
      if decide (today ≤ nv_date last_row) then net_values_file w' = net_values_file w
      else
        match fetch_prices (tickers_of base) (Z.max rb (nv_date last_row)) today w with
        | (Val frame, _) =>
            match compute_net_values frame (weight_frac <$> base) (net_value last_row) with
            | Val segment => net_values_file w' = Some (default [] ex ++ tail segment)
            | _ => net_values_file w' = net_values_file w
            end
        | _ => net_values_file w' = net_values_file w
        end
  | None =>
      if decide (today ≤ rb) then net_values_file w' = net_values_file w
      else
        match fetch_prices (tickers_of base) rb today w with
        | (Val frame, _) =>
            match compute_net_values frame (weight_frac <$> base) num_one with
            | Val segment => net_values_file w' = Some segment
            | _ => net_values_file w' = net_values_file w
            end
        | _ => net_values_file w' = net_values_file w
        end
  end.
Proof.
  intros Hu. pose proof (update_history_inv _ _ _ _ _ _ _ Hu) as Hinv.
  assert (Hkeep : r ≠ Val tt → net_values_file w' = net_values_file w).
  { intros Hr. destruct r as [[]| |e]; [done| |].
    - by destruct Hinv as [-> _].
    - by apply only_requests_files in Hinv as (? & _). }
  clear Hinv. revert Hu. unfold update_history.
  destruct ex as [existing|]; cbn [mbind option_bind default from_option id];
    [destruct (last existing) as [last_row|] eqn:Hlast|]; cbn beta iota.
  - case_decide; [intros [= <- <-]; by apply Hkeep|].
    destruct (fetch_prices _ _ _ _) as [[frame| |e] w1] eqn:Hf.
    + rewrite (bind_Val _ _ _ _ _ Hf).
      destruct (compute_net_values _ _ _) as [seg| |e] eqn:Hc; unfold lift.
      * by intros [= <- <-].
      * intros [= <- <-]. by apply Hkeep.
      * intros [= <- <-]. by apply Hkeep.
    + rewrite (bind_Ret _ _ _ _ Hf). intros [= <- <-]. by apply Hkeep.
    + rewrite (bind_Abort _ _ _ _ _ Hf). intros [= <- <-]. by apply Hkeep.
  - case_decide; [intros [= <- <-]; by apply Hkeep|].
    destruct (fetch_prices _ _ _ _) as [[frame| |e] w1] eqn:Hf.
    + rewrite (bind_Val _ _ _ _ _ Hf).
      destruct (compute_net_values _ _ _) as [seg| |e] eqn:Hc; unfold lift.
      * by intros [= <- <-].
      * intros [= <- <-]. by apply Hkeep.
      * intros [= <- <-]. by apply Hkeep.
    + rewrite (bind_Ret _ _ _ _ Hf). intros [= <- <-]. by apply Hkeep.
    + rewrite (bind_Abort _ _ _ _ _ Hf). intros [= <- <-]. by apply Hkeep.
  - case_decide; [intros [= <- <-]; by apply Hkeep|].
    destruct (fetch_prices _ _ _ _) as [[frame| |e] w1] eqn:Hf.
    + rewrite (bind_Val _ _ _ _ _ Hf).
      destruct (compute_net_values _ _ _) as [seg| |e] eqn:Hc; unfold lift.
      * by intros [= <- <-].
      * intros [= <- <-]. by apply Hkeep.
      * intros [= <- <-]. by apply Hkeep.
    + rewrite (bind_Ret _ _ _ _ Hf). intros [= <- <-]. by apply Hkeep.
    + rewrite (bind_Abort _ _ _ _ _ Hf). intros [= <- <-]. by apply Hkeep.
Qed.

(** The same of a whole run whose reads went through: the refresh of the
    live weights leaves the record as the history update left it. *)
Lemma main_history_file w rb base ex r w' :
  prelude w rb base ex →
  main w = (r, w') →
  ∃ r1 w1,
    update_history rb base ex (clock w) w = (r1, w1)
    ∧ net_values_file w' = net_values_file w1
    ∧ legacy_file w' = legacy_file w.
Proof.
  intros ([key Hkey] & Hrb & Hbase & Hex). unfold main.
  rewrite (bind_Val _ _ _ _ _ Hkey), (bind_Val _ _ _ _ _ Hrb),
    (bind_Val _ _ _ _ _ Hbase), (bind_Val _ _ _ _ _ Hex).
  rewrite (bind_Val (ask clock) _ w (clock w) w eq_refl).
  destruct (update_history rb base ex (clock w) w) as [r1 w1] eqn:Hu.
  pose proof (update_history_inv _ _ _ _ _ _ _ Hu) as Hinv.
  assert (Hleg : legacy_file w1 = legacy_file w).
  { destruct r1 as [[]| |e].
    - destruct Hinv as (w2 & frame & seg & [(? & ? & _ & _ & _ & Hf & _ & ->)
                                           |(_ & _ & Hf & _ & ->)]);
        apply fetch_prices_frame in Hf as [Hreq _];
        by apply only_requests_files in Hreq as (? & ? & _).
    - by destruct Hinv as [-> _].
    - by apply only_requests_files in Hinv as (? & ? & _). }
  intros Hrun. exists r1, w1. split; [done|].
  destruct r1 as [[]| |e].
  - rewrite (bind_Val _ _ _ _ _ Hu) in Hrun.
    destruct (refresh_keeps_history _ _ _ _ _ _ Hrun) as [-> ->]. by rewrite Hleg.
  - rewrite (bind_Ret _ _ _ _ Hu) in Hrun. by injection Hrun as <- <-.
  - rewrite (bind_Abort _ _ _ _ _ Hu) in Hrun. by injection Hrun as <- <-.
Qed.

(** C6: the net-value record after a run whose reads went through, for
    history files whose row order is settled.  The history the run starts
    from is the public file as [load_net_values] leaves it, when there is
    no legacy file.  When the run starts from a
    history that ends before today, and the prices of the window from
    [max(rebalance_date, last_date)] to today are fetched and the segment
    computed, the record written is the history followed by the segment
    without its first row; its dates ascend strictly, so that no date occurs
    twice, and every appended row is dated after every row of the history:
    the computed row at the last date of the history is not appended, and
    the row of the history stays.  When there is no history, the record is
    the segment computed from the rebalance date on, with strictly
    ascending dates.  In every other case (the history reaches today, the
    rebalance date is not yet past on a first run, the fetch or the
    computation fails) the record is left as it was. *)
Theorem written_history_strictly_ascending w rb base ex r w' :
  files_settled w →
  prelude w rb base ex →
  main w = (r, w') →
  (legacy_file w = None → ex = load_net_values <$> net_values_file w)
  ∧
  match ex ≫= last with
  | Some last_row =>
      if decide (clock w ≤ nv_date last_row) then net_values_file w' = net_values_file w
      else
        match fetch_prices (tickers_of base) (Z.max rb (nv_date last_row)) (clock w) w with
        | (Val frame, _) =>
            match compute_net_values frame (weight_frac <$> base) (net_value last_row) with
            | Val segment =>
                let existing := default [] ex in
                net_values_file w' = Some (existing ++ tail segment)
                ∧ StronglySorted Z.lt (nv_date <$> existing ++ tail segment)
                ∧ nv_date <$> tail segment = tail (rows frame).*1
                ∧ ∀ r_old r_new, r_old ∈ existing → r_new ∈ tail segment →
                                 nv_date r_old < nv_date r_new
            | _ => net_values_file w' = net_values_file w
            end
        | _ => net_values_file w' = net_values_file w
        end
  | None =>
      if decide (clock w ≤ rb) then net_values_file w' = net_values_file w
      else
        match fetch_prices (tickers_of base) rb (clock w) w with
        | (Val frame, _) =>
            match compute_net_values frame (weight_frac <$> base) num_one with
            | Val segment =>
                net_values_file w' = Some segment
                ∧ StronglySorted Z.lt (nv_date <$> segment)
                ∧ nv_date <$> segment = (rows frame).*1
            | _ => net_values_file w' = net_values_file w
            end
        | _ => net_values_file w' = net_values_file w
        end
  end.
Proof.
  intros _ Hpre Hrun.
  destruct (main_history_file _ _ _ _ _ _ Hpre Hrun) as (r1 & w1 & Hu & -> & _).
  apply update_history_file in Hu.
  destruct Hpre as (_ & _ & _ & Hload).
  split.
  { intros Hleg. unfold load_existing in Hload. rewrite Hleg in Hload.
    destruct (net_values_file w) as [csv|]; cbn in Hload; by injection Hload as <-. }
  destruct (ex ≫= last) as [last_row|] eqn:Hlast.
  - case_decide; [done|].
    destruct (fetch_prices _ _ _ _) as [[frame| |e] w2] eqn:Hf; [|done|done].
    destruct (compute_net_values _ _ _) as [seg| |e] eqn:Hc; [|done|done].
    destruct ex as [existing|]; [|done]. cbn in Hlast. cbn [default from_option id] in *.
    destruct (appended_rows_after existing last_row rb (clock w) _ w frame w2 _ seg
                (load_existing_strict _ _ _ Hload) Hlast Hf Hc)
      as (Hsorted & _ & Hcross).
    split; [done|]. split; [done|]. split; [|done].
    by rewrite fmap_tail, (compute_net_values_dates _ _ _ _ Hc).
  - case_decide; [done|].
    destruct (fetch_prices _ _ _ _) as [[frame| |e] w2] eqn:Hf; [|done|done].
    destruct (compute_net_values _ _ _) as [seg| |e] eqn:Hc; [|done|done].
    split; [done|]. rewrite (compute_net_values_dates _ _ _ _ Hc). split; [|done].
    by apply fetch_prices_dates in Hf as (_ & Hsorted & _).
Qed.

(** C9: when both the public and the legacy history exist and have rows
    (in a settled order), the run starts from the one whose first date is
    earlier (the public one when the first dates are equal), and it resumes
    from the last row of that one: when that row is dated before today and
    the prices are fetched and the segment computed, the record written is
    the chosen history followed by the segment without its first row, all
    of it dated after that last row, so that no row of the other history
    gets in; in every other case the record is left as it was.  The legacy
    file is never written. *)
Theorem earliest_candidate_is_base w public legacy p0 l0 :
  order_settled public → order_settled legacy →
  net_values_file w = Some public →
  legacy_file w = Some legacy →
  head (load_net_values public) = Some p0 →
  head (load_net_values legacy) = Some l0 →
  let chosen :=
    if decide (nv_date l0 < nv_date p0) then load_net_values legacy
    else load_net_values public in
  load_existing w = (Val (Some chosen), w)
  ∧ ∃ last_row,
      last chosen = Some last_row
      ∧ ∀ rb base ex r w',
          prelude w rb base ex →
          main w = (r, w') →
          legacy_file w' = Some legacy
          ∧ if decide (clock w ≤ nv_date last_row)
            then net_values_file w' = Some public
            else
              match fetch_prices (tickers_of base) (Z.max rb (nv_date last_row))
                      (clock w) w with
              | (Val frame, _) =>
                  match compute_net_values frame (weight_frac <$> base)
                          (net_value last_row) with
                  | Val segment =>
                      net_values_file w' = Some (chosen ++ tail segment)
                      ∧ nv_date <$> tail segment = tail (rows frame).*1
                      ∧ Forall (fun x => nv_date last_row < nv_date x) (tail segment)
                  | _ => net_values_file w' = Some public
                  end
              | _ => net_values_file w' = Some public
              end.
Proof.
  intros _ _ Hpub Hleg Hp0 Hl0 chosen.
  assert (Hload : load_existing w = (Val (Some chosen), w)).
  { unfold load_existing. rewrite Hpub, Hleg. cbn.
    rewrite !date_min_sorted by apply load_net_values_strict.
    rewrite Hp0, Hl0. cbn. unfold chosen.
    destruct (decide (nv_date l0 < nv_date p0)).
    - by rewrite bool_decide_eq_true_2.
    - by rewrite bool_decide_eq_false_2. }
  split; [done|].
  assert (Hlast : ∃ last_row, last chosen = Some last_row).
  { unfold chosen. destruct (decide _).
    - destruct (load_net_values legacy) as [|x xs _] using rev_ind; [done|].
      rewrite last_snoc. eauto.
    - destruct (load_net_values public) as [|x xs _] using rev_ind; [done|].
      rewrite last_snoc. eauto. }
  destruct Hlast as [last_row Hlast]. exists last_row. split; [done|].
  intros rb base ex r w' Hpre Hrun.
  destruct (main_history_file _ _ _ _ _ _ Hpre Hrun) as (r1 & w1 & Hu & -> & ->).
  split; [done|].
  apply update_history_file in Hu.
  destruct Hpre as (_ & _ & _ & Hload'). rewrite Hload in Hload'. injection Hload' as <-.
  cbn [mbind option_bind default from_option id] in Hu. rewrite Hlast in Hu. rewrite <- Hpub.
  case_decide; [done|].
  destruct (fetch_prices _ _ _ _) as [[frame| |e] w2] eqn:Hf; [|done|done].
  destruct (compute_net_values _ _ _) as [seg| |e] eqn:Hc; [|done|done].
  destruct (appended_rows_after chosen last_row rb (clock w) _ w frame w2 _ seg
              (load_existing_strict _ _ _ Hload) Hlast Hf Hc)
    as (_ & Hafter & _).
  split; [done|]. split; [|done].
  by rewrite fmap_tail, (compute_net_values_dates _ _ _ _ Hc).
Qed.

End Merge.

Lemma written_history_strictly_ascending_witness :
  ∃ df,
    net_values_file (main Scenario.rebalanced_later).2 = Some df
    ∧ StronglySorted Z.lt (nv_date <$> df)
    ∧ nv_date <$> df = [10; 21; 22].
Proof.
  assert (Hset : files_settled Scenario.rebalanced_later).
  { intros csv [[= <-]|[=]]. left. cbn. lia. }
  assert (Hpre : prelude Scenario.rebalanced_later 20
                   (Cases.value_or_nil (load_base_portfolio Scenario.rebalanced_later).1)
                   (Some [NvRow 10 1.5%float 0%float])).
  { split; [by eexists|]. by repeat split. }
  destruct (main Scenario.rebalanced_later) as [r w'] eqn:Hrun.
  pose proof (written_history_strictly_ascending _ _ _ _ _ _ Hset Hpre Hrun) as H.
  destruct H as [_ H]. vm_compute in H. destruct H as (Hfile & Hsorted & _).
  eexists. split; [exact Hfile|]. split; [exact Hsorted|]. reflexivity.
Defined.

Lemma earliest_candidate_is_base_witness :
  load_existing Scenario.two_histories
  = (Val (Some [NvRow 5 1%float 0%float; NvRow 16 2%float 1%float]),
     Scenario.two_histories)
  ∧ ∃ segment,
      net_values_file (main Scenario.two_histories).2
      = Some ([NvRow 5 1%float 0%float; NvRow 16 2%float 1%float] ++ segment)
      ∧ nv_date <$> segment = [21; 22].
Proof.
  pose proof (earliest_candidate_is_base Scenario.two_histories
                [NvRow 15 1.25%float 0%float; NvRow 16 1.5%float 0.25%float]
                [NvRow 5 1%float 0%float; NvRow 16 2%float 1%float]
                (NvRow 15 1.25%float 0%float) (NvRow 5 1%float 0%float)
                ltac:(left; cbn; lia) ltac:(left; cbn; lia)
                eq_refl eq_refl eq_refl eq_refl) as [Hload (last_row & Hlast & H)].
  split; [exact Hload|].
  cbn in Hlast. injection Hlast as <-.
  assert (Hpre : prelude Scenario.two_histories 20
                   (Cases.value_or_nil (load_base_portfolio Scenario.two_histories).1)
                   (Some [NvRow 5 1%float 0%float; NvRow 16 2%float 1%float])).
  { split; [by eexists|]. by repeat split. }
  destruct (H _ _ _ _ _ Hpre (surjective_pairing (main Scenario.two_histories)))
    as [_ Hw].
  vm_compute in Hw. destruct Hw as (Hfile & Hdates & _).
  eexists. split; [exact Hfile|exact Hdates].
Defined.

(** ** Runs with a steady provider *)

Section Replay.
Context {F : Type} `{!Numeric F}.
Implicit Types (w : @world F).

Lemma same_config_refl w : same_config w w.
Proof. by repeat split. Qed.

Lemma same_config_trans w1 w2 w3 :
  same_config w1 w2 → same_config w2 w3 → same_config w1 w3.
Proof. unfold same_config. intuition congruence. Qed.

Lemma same_inputs_refl w : same_inputs w w.
Proof. split; [apply same_config_refl|done]. Qed.

Lemma same_inputs_sym w1 w2 : same_inputs w1 w2 → same_inputs w2 w1.
Proof. unfold same_inputs, same_config. intuition congruence. Qed.

Lemma same_inputs_trans w1 w2 w3 :
  same_inputs w1 w2 → same_inputs w2 w3 → same_inputs w1 w3.
Proof. unfold same_inputs, same_config. intuition congruence. Qed.

Lemma only_requests_inputs w w' : only_requests w w' → same_inputs w w'.
Proof. intros [-> _]. by repeat split. Qed.

Lemma steady_config w w' : steady w → same_config w w' → steady w'.
Proof. intros Hs (_ & _ & _ & _ & _ & _ & Hp) n t. rewrite Hp. apply Hs. Qed.

Lemma replayable_lift {A} (r : result A) : replayable (F:=F) (lift r).
Proof.
  intros w w2 r' w' _ Hin [= <- <-]. split; [apply same_config_refl|].
  exists w2. by split.
Qed.

Lemma replayable_bind {A B} (m : M A) (f : A → M B) :
  replayable (F:=F) m → (∀ a, replayable (F:=F) (f a)) → replayable (F:=F) (m ≫= f).
Proof.
  intros Hm Hf w w2 r w' Hs Hin
    [(a & w1 & Hrun & Hk)|[[Hrun ->]|(e & Hrun & ->)]]%bind_inv;
    destruct (Hm _ _ _ _ Hs Hin Hrun) as (Hc1 & w21 & Hrun2 & Hin1).
  - destruct (Hf a _ _ _ _ (steady_config _ _ Hs Hc1) Hin1 Hk) as (Hc2 & w2' & Hk2 & Hin2).
    split; [by eapply same_config_trans|].
    exists w2'. split; [|done]. by rewrite (bind_Val _ _ _ _ _ Hrun2).
  - split; [done|]. exists w21. split; [|done]. by rewrite (bind_Ret _ _ _ _ Hrun2).
  - split; [done|]. exists w21. split; [|done]. by rewrite (bind_Abort _ _ _ _ _ Hrun2).
Qed.

(** A computation that reads the inputs and writes nothing. *)
Lemma replayable_read {A} (m : M A) (g : @world F → result A) :
  (∀ w, m w = (g w, w)) →
  (∀ w w2, same_inputs w w2 → g w2 = g w) →
  replayable (F:=F) m.
Proof.
  intros Hm Hg w w2 r w' _ Hin. rewrite Hm. intros [= <- <-].
  split; [apply same_config_refl|]. exists w2. by rewrite Hm, (Hg w w2 Hin).
Qed.

Lemma replayable_load_api_key : replayable (load_api_key (F:=F)).
Proof.
  apply (replayable_read _ (fun w => (load_api_key w).1)).
  - intros w. unfold load_api_key.
    destruct (env_api_key w); [case_decide|]; by destruct (api_key_file w).
  - intros w w2 ((Hk & Hf & _) & _). unfold load_api_key. rewrite Hk, Hf.
    destruct (env_api_key w); [case_decide|]; by destruct (api_key_file w).
Qed.

Lemma replayable_load_rebalance_date : replayable (load_rebalance_date (F:=F)).
Proof.
  apply (replayable_read _ (fun w => (load_rebalance_date w).1)).
  - intros w. unfold load_rebalance_date. by destruct (meta_file w) as [[|]|].
  - intros w w2 ((_ & _ & Hm & _) & _). unfold load_rebalance_date. rewrite Hm.
    by destruct (meta_file w) as [[|]|].
Qed.

Lemma replayable_load_base_portfolio : replayable (load_base_portfolio (F:=F)).
Proof.
  apply (replayable_read _ (fun w => (load_base_portfolio w).1)).
  - intros w. unfold load_base_portfolio.
    destruct (base_file w) as [[|df]|]; [|destruct (num_le0 _)|]; done.
  - intros w w2 ((_ & _ & _ & Hb & _) & _). unfold load_base_portfolio. rewrite Hb.
    destruct (base_file w) as [[|df]|]; [|destruct (num_le0 _)|]; done.
Qed.

Lemma replayable_load_existing : replayable (load_existing (F:=F)).
Proof.
  apply (replayable_read _ (fun w => (load_existing w).1)).
  - intros w. unfold load_existing. by destruct (load_net_values <$> _).
  - intros w w2 ((_ & _ & _ & _ & Hl & _) & Hn). unfold load_existing.
    rewrite Hl, Hn. by destruct (load_net_values <$> _).
Qed.

Lemma replayable_clock : replayable (ask (clock (F:=F))).
Proof.
  apply (replayable_read _ (fun w => Val (clock w))); [done|].
  intros w w2 ((_ & _ & _ & _ & _ & Hc & _) & _). by rewrite Hc.
Qed.

Lemma replayable_write_net_values df : replayable (write_net_values (F:=F) df).
Proof.
  intros w w2 r w' _ (Hc & Hn) [= <- <-]. split; [by repeat split|].
  exists (set_net_values df w2). split; [done|]. split; [|done].
  unfold same_config in *. cbn. intuition.
Qed.

Lemma replayable_write_portfolio df : replayable (write_portfolio (F:=F) df).
Proof.
  intros w w2 r w' _ (Hc & Hn) [= <- <-]. split; [by repeat split|].
  exists (set_portfolio df w2). split; [done|]. split; [|done].
  unfold same_config in *. cbn. intuition.
Qed.

(** With a steady provider the loop of [fetch_prices] is [gather]. *)
Lemma fetch_series_steady tickers a b acc w :
  steady w →
  ∃ w', fetch_series tickers a b acc w = (gather (provider w 0%nat) tickers a b acc, w')
        ∧ only_requests w w'.
Proof.
  intros Hs. revert acc w Hs. induction tickers as [|t ts IH]; intros acc w Hs.
  - exists w. split; [done|apply only_requests_refl].
  - rewrite fetch_series_cons. cbn [gather]. rewrite (Hs (requests w) t).
    destruct (historic_rows _ _ _) as [[|x df]| |e].
    3:{ eexists. split; [done|apply only_requests_count]. }
    3:{ eexists. split; [done|apply only_requests_count]. }
    { eexists. split; [done|apply only_requests_count]. }
    destruct (window_series _ _ _) as [|y s].
    { eexists. split; [done|apply only_requests_count]. }
    destruct (IH (dict_set t (y :: s) acc) (count_request w)) as (w' & Hrun & Hreq).
    { intros n t'. apply Hs. }
    exists w'. split; [exact Hrun|].
    eapply only_requests_trans; [apply only_requests_count|done].
Qed.

Lemma fetch_prices_steady tickers a b w :
  steady w →
  ∃ w', fetch_prices tickers a b w = (priced (provider w 0%nat) tickers a b, w')
        ∧ only_requests w w'.
Proof.
  intros Hs. destruct (fetch_series_steady tickers a b [] w Hs) as (w' & Hrun & Hreq).
  exists w'. split; [|done]. unfold fetch_prices, priced.
  destruct (gather _ _ _ _ _) as [sm| |e] eqn:Hg.
  - by rewrite (bind_Val _ _ _ _ _ Hrun).
  - by rewrite (bind_Ret _ _ _ _ Hrun).
  - by rewrite (bind_Abort _ _ _ _ _ Hrun).
Qed.

Lemma replayable_fetch_prices tickers a b : replayable (fetch_prices (F:=F) tickers a b).
Proof.
  intros w w2 r w' Hs Hin Hrun.
  destruct (fetch_prices_steady tickers a b w Hs) as (w1 & Hrun1 & Hreq1).
  rewrite Hrun in Hrun1. injection Hrun1 as -> ->.
  pose proof (only_requests_inputs _ _ Hreq1) as [Hc1 Hn1].
  split; [done|].
  assert (Hs2 : steady w2) by (eapply steady_config; [done|apply Hin]).
  destruct (fetch_prices_steady tickers a b w2 Hs2) as (w2' & Hrun2 & Hreq2).
  exists w2'. split.
  - rewrite Hrun2. destruct Hin as ((_ & _ & _ & _ & _ & _ & ->) & _). done.
  - eapply same_inputs_trans; [apply same_inputs_sym; by split|].
    eapply same_inputs_trans; [exact Hin|by apply only_requests_inputs].
Qed.

Lemma replayable_update_history rebalance_date base_portfolio existing_df today :
  replayable (update_history (F:=F) rebalance_date base_portfolio existing_df today).
Proof.
  unfold update_history.
  destruct existing_df as [existing|]; cbn [mbind option_bind];
    [destruct (last existing) as [last_row|]|];
    (case_decide; [apply replayable_lift|]);
    (apply replayable_bind; [apply replayable_fetch_prices|intros frame]);
    (apply replayable_bind; [apply replayable_lift|intros seg]);
    apply replayable_write_net_values.
Qed.

Lemma replayable_refresh_live_weights rebalance_date base_portfolio today :
  replayable (refresh_live_weights (F:=F) rebalance_date base_portfolio today).
Proof.
  unfold refresh_live_weights.
  apply replayable_bind; [apply replayable_fetch_prices|intros frame].
  apply replayable_bind; [apply replayable_lift|intros live].
  apply replayable_write_portfolio.
Qed.

(** With a steady provider, two runs of [main] from the same inputs end the
    same way, with the same records read by a later run. *)
Lemma replayable_main : replayable (main (F:=F)).
Proof.
  unfold main.
  apply replayable_bind; [apply replayable_load_api_key|intros key].
  apply replayable_bind; [apply replayable_load_rebalance_date|intros rb].
  apply replayable_bind; [apply replayable_load_base_portfolio|intros base].
  apply replayable_bind; [apply replayable_load_existing|intros existing].
  apply replayable_bind; [apply replayable_clock|intros today].
  apply replayable_bind; [apply replayable_update_history|intros []].
  apply replayable_refresh_live_weights.
Qed.

End Replay.

(** ** Narrower windows *)

Section Narrow.
Context {F : Type} `{!Numeric F}.
Implicit Types (w : @world F).

Lemma kept_rows_dates (data : gmap Z (@series_bar F)) a b d :
  d ∈ (kept_rows (TimeSeries data) a b).*1
  ↔ (∃ x, data !! d = Some (ParsedBar x)) ∧ a ≤ d ∧ d ≤ b.
Proof.
  rewrite list_elem_of_fmap. split.
  - intros ([d' x] & -> & (? & ? & ?)%elem_of_kept_rows). eauto.
  - intros ([x Hx] & ? & ?). exists (d, x). split; [done|]. by apply elem_of_kept_rows.
Qed.

Lemma narrow_series (r : @response F) s a' b d :
  s ≤ a' →
  d ∈ (window_series (kept_rows r (a' - 7) b) a' b).*1
  ↔ d ∈ (window_series (kept_rows r (s - 7) b) s b).*1 ∧ a' ≤ d.
Proof.
  intros Hle. rewrite !window_series_dates, !list_elem_of_filter.
  destruct r as [| | | | |data]; try (cbn; rewrite !elem_of_nil; tauto).
  rewrite !kept_rows_dates. unfold in_window. intuition lia.
Qed.

Lemma dict_set_narrowed a' k (v v' : list (Z * F)) d d' :
  Forall2 (narrowed a') d d' → narrowed a' (k, v) (k, v') →
  Forall2 (narrowed a') (dict_set k v d) (dict_set k v' d').
Proof.
  intros Hd Hv. induction Hd as [|[k1 v1] [k2 v2] d d' [Hk Hx] Hd IH]; cbn.
  - constructor; [done|constructor].
  - cbn in Hk. subst k2. case_decide; constructor; try done.
Qed.

Lemma gather_narrowed (answer : string → @response F) tickers s a' b
    (acc acc' sm sm' : list (string * list (Z * F))) :
  s ≤ a' → Forall2 (narrowed a') acc acc' →
  gather answer tickers s b acc = Val sm →
  gather answer tickers a' b acc' = Val sm' →
  Forall2 (narrowed a') sm sm'.
Proof.
  intros Hle. revert acc acc'.
  induction tickers as [|t ts IH]; intros acc acc' Hacc; cbn [gather].
  - by intros [= <-] [= <-].
  - pose proof (fun d => narrow_series (answer t) s a' b d Hle) as Hn.
    destruct (historic_rows (answer t) (s - 7) b) as [rows| |e] eqn:Hrows; [|done..].
    destruct (historic_rows (answer t) (a' - 7) b) as [rows'| |e] eqn:Hrows'; [|done..].
    apply historic_rows_Val in Hrows as [-> _]. apply historic_rows_Val in Hrows' as [-> _].
    destruct (kept_rows (answer t) (s - 7) b) as [|x df]; [done|].
    destruct (kept_rows (answer t) (a' - 7) b) as [|x' df']; [done|].
    destruct (window_series (x :: df) s b) as [|y ser]; [done|].
    destruct (window_series (x' :: df') a' b) as [|y' ser']; [done|].
    apply IH, dict_set_narrowed; [done|]. by split.
Qed.

Lemma narrowed_all a' (sm sm' : list (string * list (Z * F))) d :
  Forall2 (narrowed a') sm sm' → sm ≠ [] →
  (∀ s', s' ∈ sm'.*2 → d ∈ s'.*1) ↔ (∀ s, s ∈ sm.*2 → d ∈ s.*1) ∧ a' ≤ d.
Proof.
  induction 1 as [|x x' sm sm' [_ Hx] Hsm IH]; [done|]. intros _.
  rewrite !fmap_cons.
  destruct sm as [|y sm].
  - apply Forall2_nil_inv_l in Hsm as ->. cbn. split.
    + intros Hall. destruct (proj1 (Hx d)) as [? ?]; [apply Hall; by left|].
      split; [|done]. by intros s ->%list_elem_of_singleton.
    + intros [Hall ?] s' ->%list_elem_of_singleton. apply Hx. split; [|done].
      apply Hall. by left.
  - specialize (IH ltac:(done)). split.
    + intros Hall. destruct (proj1 IH) as [Hrest ?].
      { intros s' Hs'. apply Hall. by right. }
      split; [|done]. intros s [->|Hs]%elem_of_cons; [|by apply Hrest].
      apply Hx, Hall. by left.
    + intros [Hall ?] s' [->|Hs']%elem_of_cons.
      * apply Hx. split; [|done]. apply Hall. by left.
      * apply (proj2 IH); [|done]. split; [|done]. intros s Hs. apply Hall. by right.
Qed.

(** The table for a window that starts later has the rows of the table for
    the wider window that are dated from that start on. *)
Lemma priced_narrowed (answer : string → @response F) tickers s a' b
    (frame frame' : @price_frame F) :
  s ≤ a' →
  priced answer tickers s b = Val frame →
  priced answer tickers a' b = Val frame' →
  ∀ d, d ∈ (rows frame').*1 ↔ d ∈ (rows frame).*1 ∧ a' ≤ d.
Proof.
  unfold priced. intros Hle.
  destruct (gather answer tickers s b []) as [sm| |e] eqn:Hg; [|done..].
  destruct (gather answer tickers a' b []) as [sm'| |e] eqn:Hg'; [|done..].
  cbn. intros (Hne & _ & -> & _)%align_Val_rows (Hne' & _ & -> & _)%align_Val_rows d.
  assert (Hn : Forall2 (narrowed a') sm sm').
  { eapply gather_narrowed; [done| |done..]. constructor. }
  rewrite !elem_of_inner_join_dates by (by destruct sm, sm').
  by apply narrowed_all.
Qed.

Lemma strict_singleton (l : list Z) x :
  StronglySorted Z.lt l → l ≠ [] → (∀ d, d ∈ l → d = x) → l = [x].
Proof.
  intros Hs Hne Hall. destruct l as [|d [|d' l]]; [done|..].
  - f_equal. apply Hall. by left.
  - apply StronglySorted_inv in Hs as [_ Hd]. apply Forall_cons in Hd as [Hd _].
    assert (d = x) by (apply Hall; by left).
    assert (d' = x) by (apply Hall; right; by left). lia.
Qed.

(** After a fetch whose table ends on [last_date], a fetch for the window
    that starts on [last_date] gives a table with that one row. *)
Lemma refetch_single_row tickers s b w frame w0 last_date w1 frame' w1' :
  steady w → provider w1 = provider w →
  fetch_prices tickers s b w = (Val frame, w0) →
  last ((rows frame).*1) = Some last_date →
  fetch_prices tickers last_date b w1 = (Val frame', w1') →
  (rows frame').*1 = [last_date].
Proof.
  intros Hs Hp Hf Hlast Hf'.
  assert (Hs1 : steady w1) by (intros n t; rewrite Hp; apply Hs).
  pose proof (fetch_prices_dates _ _ _ _ _ _ Hf) as (_ & Hsorted & Hwin).
  pose proof (fetch_prices_dates _ _ _ _ _ _ Hf') as (Hne' & Hsorted' & _).
  destruct (fetch_prices_steady tickers s b w Hs) as (? & Hpr & _).
  destruct (fetch_prices_steady tickers last_date b w1 Hs1) as (? & Hpr' & _).
  rewrite Hf in Hpr. rewrite Hf', Hp in Hpr'.
  injection Hpr as Hpr _. injection Hpr' as Hpr' _.
  assert (Hle : s ≤ last_date).
  { rewrite Forall_forall in Hwin.
    destruct (Hwin last_date) as [? _]; [by apply last_Some_elem_of|done]. }
  pose proof (priced_narrowed _ _ _ _ _ _ _ Hle (eq_sym Hpr) (eq_sym Hpr')) as Hn.
  apply strict_singleton; [done|by destruct (rows frame')|].
  intros d [Hd Hge]%Hn.
  pose proof (strict_last_max _ _ Hsorted Hlast) as Hmax.
  rewrite Forall_forall in Hmax. specialize (Hmax d Hd). lia.
Qed.

(** With a steady provider a fetch for the same window gives the same
    table. *)
Lemma refetch_same tickers a b w r w0 w1 r' w1' :
  steady w → provider w1 = provider w →
  fetch_prices tickers a b w = (r, w0) →
  fetch_prices tickers a b w1 = (r', w1') →
  r' = r.
Proof.
  intros Hs Hp Hf Hf'.
  assert (Hs1 : steady w1) by (intros n t; rewrite Hp; apply Hs).
  destruct (fetch_prices_steady tickers a b w Hs) as (? & Hpr & _).
  destruct (fetch_prices_steady tickers a b w1 Hs1) as (? & Hpr' & _).
  rewrite Hf in Hpr. rewrite Hf', Hp in Hpr'. congruence.
Qed.

End Narrow.

(** ** Running again *)

Section Rerun.
Context {F : Type} `{!Numeric F}.
Implicit Types (w : @world F) (df : list (@nv_row F)).

Lemma last_None_nil {A} (l : list A) : last l = None → l = [].
Proof. destruct l as [|x l] using rev_ind; [done|by rewrite last_snoc]. Qed.

Lemma date_min_prefix df new :
  df ≠ [] → StronglySorted Z.lt (nv_date <$> df ++ new) →
  date_min (df ++ new) = date_min df ∧ is_Some (date_min df).
Proof.
  intros Hne Hs. rewrite (date_min_sorted _ Hs).
  rewrite fmap_app in Hs. apply StronglySorted_app_1_l in Hs.
  rewrite (date_min_sorted _ Hs). destruct df; [done|]. cbn. eauto.
Qed.

(** A run that comes after a run that wrote [written] starts from
    [written]. *)
Lemma reload_written w existing_df written w1 existing_df' :
  load_existing w = (Val existing_df, w) →
  written ≠ [] → StronglySorted Z.lt (nv_date <$> written) →
  (∃ existing new_rows,
      existing_df = Some existing ∧ existing ≠ [] ∧ written = existing ++ new_rows)
  ∨ existing_df ≫= last = None →
  net_values_file w1 = Some written →
  legacy_file w1 = legacy_file w →
  load_existing w1 = (Val existing_df', w1) →
  existing_df' = Some written.
Proof.
  intros Hload Hne Hs Hrel Hn Hl Hload1.
  unfold load_existing in Hload1. rewrite Hn, Hl in Hload1. cbn in Hload1.
  rewrite (load_net_values_id _ Hs) in Hload1.
  destruct (legacy_file w) as [legacy|] eqn:Hleg; cbn in Hload1;
    [|by injection Hload1 as <-].
  set (L := load_net_values legacy) in *.
  assert (Hw : ∃ c, date_min written = Some c).
  { rewrite (date_min_sorted _ Hs). destruct written; [done|]. cbn. eauto. }
  destruct Hw as [c Hc]. rewrite Hc in Hload1.
  assert (Hkey : ∃ l, date_min L = Some l ∧ ¬ l < c); [|destruct Hkey as (l & Hl' & Hnlt)].
  2:{ rewrite Hl' in Hload1. cbn in Hload1.
      rewrite bool_decide_eq_false_2 in Hload1 by done. by injection Hload1 as <-. }
  unfold load_existing in Hload. rewrite Hleg in Hload.
  destruct (net_values_file w) as [public|]; cbn in Hload.
  - set (P := load_net_values public) in *. fold L in Hload.
    destruct (date_min L) as [l|] eqn:HL, (date_min P) as [p|] eqn:HP;
      cbn in Hload; try done.
    injection Hload as <-.
    destruct Hrel as [(E & new & [= <-] & HE & ->)|Hnone].
    + destruct (date_min_prefix _ _ HE Hs) as [Hpre _]. rewrite Hpre in Hc.
      exists l. split; [done|]. case_bool_decide as Hlt.
      * rewrite HL in Hc. injection Hc as <-. lia.
      * rewrite HP in Hc. by injection Hc as <-.
    + cbn in Hnone. apply last_None_nil in Hnone.
      case_bool_decide; rewrite Hnone in *; done.
  - fold L in Hload. injection Hload as <-.
    destruct Hrel as [(E & new & [= <-] & HE & ->)|Hnone].
    + destruct (date_min_prefix _ _ HE Hs) as [Hpre [l HL]]. rewrite Hpre in Hc.
      exists l. split; [done|]. rewrite HL in Hc. injection Hc as <-. lia.
    + cbn in Hnone. apply last_None_nil in Hnone. unfold L in *.
      rewrite Hnone in Hload1. done.
Qed.

Lemma refresh_keeps_config rebalance_date base_portfolio today w r w' :
  refresh_live_weights rebalance_date base_portfolio today w = (r, w') →
  same_inputs w w'.
Proof.
  intros Hr. pose proof (refresh_live_weights_inv _ _ _ _ _ _ Hr) as Hinv.
  destruct r as [[]| |e]; [|done|by apply only_requests_inputs].
  destruct Hinv as (w1 & frame & live & Hf & _ & ->).
  apply fetch_prices_frame in Hf as [Hreq _].
  apply only_requests_inputs in Hreq. done.
Qed.

Lemma prelude_agree w w1 rb base ex rb1 base1 ex1 :
  same_config w w1 →
  prelude w rb base ex → prelude w1 rb1 base1 ex1 → rb1 = rb ∧ base1 = base.
Proof.
  intros (_ & _ & Hm & Hb & _) (_ & Hrb & Hbase & _) (_ & Hrb1 & Hbase1 & _).
  unfold load_rebalance_date, load_base_portfolio in *.
  rewrite Hm in Hrb1. rewrite Hb in Hbase1. split.
  - destruct (meta_file w) as [[d|]|]; congruence.
  - destruct (base_file w) as [[|df]|]; [done| |done].
    destruct (num_le0 _); congruence.
Qed.

Lemma single_row_segment frame base_weights start_value segment d :
  compute_net_values frame base_weights start_value = Val segment →
  (rows frame).*1 = [d] → tail segment = ([] : list (@nv_row F)).
Proof.
  intros Hc%compute_net_values_dates Hd. rewrite Hd in Hc.
  by destruct segment as [|r [|r' seg]].
Qed.

(** What a run that wrote the history wrote: a record with rows and ascending
    dates, which a later run starts from, and the last date of which ends the
    table the run fetched. *)
Lemma update_history_written rb base existing_df today w wh :
  load_existing w = (Val existing_df, w) →
  update_history rb base existing_df today w = (Val tt, wh) →
  ∃ written last_row,
    net_values_file wh = Some written ∧ same_config w wh
    ∧ StronglySorted Z.lt (nv_date <$> written)
    ∧ last written = Some last_row
    ∧ ((∃ existing new_rows,
           existing_df = Some existing ∧ existing ≠ [] ∧ written = existing ++ new_rows)
       ∨ existing_df ≫= last = None)
    ∧ ∃ s frame w0,
        fetch_prices (tickers_of base) s today w = (Val frame, w0)
        ∧ rb ≤ s
        ∧ ((last ((rows frame).*1) = Some (nv_date last_row))
           ∨ (s = Z.max rb (nv_date last_row) ∧ length (rows frame) = 1%nat)).
Proof.
  intros Hload Hu.
  pose proof (update_history_inv _ _ _ _ _ _ _ Hu) as Hinv. cbn in Hinv.
  destruct Hinv as (w0 & frame & seg &
    [(existing & lr & -> & Hlast & Hlt & Hf & Hc & ->)|(Hnone & Hlt & Hf & Hc & ->)]).
  - destruct (appended_rows_after existing lr rb today _ w frame w0 _ seg
                (load_existing_strict _ _ _ Hload) Hlast Hf Hc) as (Hsorted & _ & _).
    pose proof (fetch_prices_frame _ _ _ _ _ _ Hf) as [Hreq%only_requests_inputs _].
    pose proof (compute_net_values_dates _ _ _ _ Hc) as Hdates.
    pose proof (fetch_prices_dates _ _ _ _ _ _ Hf) as (Hne & _ & _).
    assert (Hex : existing ≠ []) by (by destruct existing).
    destruct (last (tail seg)) as [lr'|] eqn:Hlt'.
    + exists (existing ++ tail seg), lr'. split; [done|].
      split; [apply Hreq|]. split; [done|].
      split; [by rewrite last_app, Hlt'|]. split; [left; eauto|].
      exists (Z.max rb (nv_date lr)), frame, w0. split; [done|]. split; [lia|].
      left. rewrite <- Hdates, fmap_last.
      destruct seg as [|r0 seg]; [done|]. cbn [tail] in Hlt'.
      destruct seg as [|r1 seg]; [done|]. by rewrite last_cons_cons, Hlt'.
    + apply last_None_nil in Hlt'.
      exists (existing ++ tail seg), lr. split; [done|].
      split; [apply Hreq|]. split; [done|].
      split; [by rewrite Hlt', app_nil_r|]. split; [left; eauto|].
      exists (Z.max rb (nv_date lr)), frame, w0. split; [done|]. split; [lia|].
      right. split; [done|].
      rewrite <- (length_fmap fst), <- Hdates, length_fmap.
      destruct seg as [|r0 seg]; [|by cbn in Hlt'; subst].
      cbn in Hdates. by destruct (rows frame).
  - pose proof (fetch_prices_frame _ _ _ _ _ _ Hf) as [Hreq%only_requests_inputs _].
    pose proof (compute_net_values_dates _ _ _ _ Hc) as Hdates.
    pose proof (fetch_prices_dates _ _ _ _ _ _ Hf) as (Hne & Hsorted & _).
    destruct (last seg) as [lr|] eqn:Hlast.
    2:{ apply last_None_nil in Hlast. subst seg. cbn in Hdates.
        by destruct (rows frame). }
    exists seg, lr. split; [done|]. split; [apply Hreq|].
    split; [by rewrite Hdates|]. split; [done|]. split; [by right|].
    exists rb, frame, w0. split; [done|]. split; [lia|].
    left. by rewrite <- Hdates, fmap_last, Hlast.
Qed.

(** C5: a run on a day that is not after the last date of the history it
    starts from changes nothing: no record is written and no request is sent.
    With a provider that gives each ticker the same answer at every request,
    two runs from the same inputs end the same way and leave the same
    net-value record; and a run that follows another run on the same day
    leaves the net-value record as the first run left it: it appends no row
    and changes none. *)
Theorem rerun_leaves_history :
  (∀ w existing last_row r w',
     load_existing w = (Val (Some existing), w) →
     last existing = Some last_row →
     clock w ≤ nv_date last_row →
     main w = (r, w') →
     w' = w)
  ∧ (∀ w w2 r w',
       steady w → same_inputs w w2 →
       main w = (r, w') →
       ∃ w2', main w2 = (r, w2') ∧ net_values_file w2' = net_values_file w')
  ∧ (∀ w r1 w1 r2 w2,
       steady w →
       main w = (r1, w1) →
       main w1 = (r2, w2) →
       net_values_file w2 = net_values_file w1).
Proof.
  split; [|split].
  - intros w existing last_row r w' Hload Hlast Htoday.
    intros [[-> _]|(rb & base & ex & Hpre & Hrun)]%main_inv; [done|].
    destruct Hpre as (_ & _ & _ & Hload'). rewrite Hload in Hload'.
    injection Hload' as <-.
    assert (Hu : update_history rb base (Some existing) (clock w) w = (Ret, w)).
    { unfold update_history. cbn. rewrite Hlast. by rewrite decide_True. }
    destruct Hrun as [[Hu' _]|(w1 & Hu' & _)]; rewrite Hu in Hu'; [|done].
    by injection Hu' as <- <-.
  - intros w w2 r w' Hs Hin Hrun.
    destruct (replayable_main w w2 r w' Hs Hin Hrun) as (_ & w2' & Hrun2 & _ & Hnv).
    eauto.
  - intros w r1 w1 r2 w2 Hs Hrun1 Hrun2.
    assert (Hreplay : same_inputs w w1 → net_values_file w2 = net_values_file w1).
    { intros Hin.
      destruct (replayable_main w w1 r1 w1 Hs Hin Hrun1) as (_ & w2' & Hrun2' & Hin').
      rewrite Hrun2 in Hrun2'. injection Hrun2' as _ <-. apply Hin'. }
    pose proof Hrun1 as [[-> _]|(rb & base & ex & Hpre & [[Hu Hnv]|(wh & Hu & Hr)])]%main_inv.
    { apply Hreplay, same_inputs_refl. }
    { apply Hreplay. apply update_history_inv in Hu.
      destruct r1 as [[]| |e]; [done| |by apply only_requests_inputs].
      destruct Hu as [-> _]. apply same_inputs_refl. }
    pose proof Hpre as (_ & _ & _ & Hload).
    destruct (update_history_written _ _ _ _ _ _ Hload Hu)
      as (written & lr & Hwritten & Hcfg & Hsorted & Hlast & Hrel & s & frame & w0
          & Hf & Hrb & Hend).
    pose proof (refresh_keeps_config _ _ _ _ _ _ Hr) as [Hcfg1 Hnv1].
    assert (Hcfg' : same_config w w1) by (by eapply same_config_trans).
    rewrite Hwritten in Hnv1.
    assert (Hne : written ≠ []) by (by destruct written).
    pose proof Hrun2 as
      [[-> _]|(rb2 & base2 & ex2 & Hpre2 & Hrun2')]%main_inv; [done|].
    destruct (prelude_agree _ _ _ _ _ _ _ _ Hcfg' Hpre Hpre2) as [-> ->].
    destruct Hpre2 as (_ & _ & _ & Hload2).
    assert (Hleg : legacy_file w1 = legacy_file w) by apply Hcfg'.
    pose proof (reload_written _ _ _ _ _ Hload Hne Hsorted Hrel Hnv1 Hleg Hload2) as ->.
    assert (Hclock : clock w1 = clock w) by apply Hcfg'.
    assert (Hprov : provider w1 = provider w) by apply Hcfg'.
    assert (Hstep : ∀ r w', update_history rb base (Some written) (clock w1) w1 = (r, w') →
                            net_values_file w' = Some written).
    { intros r w' Hu2. pose proof (update_history_inv _ _ _ _ _ _ _ Hu2) as Hinv.
      destruct r as [[]| |e].
      - destruct Hinv as (w3 & frame' & seg' &
          [(existing & lr' & [= <-] & Hlast' & Hlt & Hf' & Hc' & ->)|(Hnone & _)]).
        2:{ cbn in Hnone. by rewrite Hlast in Hnone. }
        rewrite Hlast in Hlast'. injection Hlast' as <-. cbn.
        rewrite Hclock in Hf'.
        assert (Hone : ∃ d, (rows frame').*1 = [d]).
        { destruct Hend as [Hend|[-> Hlen]].
          - exists (nv_date lr).
            assert (Hmax : Z.max rb (nv_date lr) = nv_date lr).
            { pose proof (fetch_prices_dates _ _ _ _ _ _ Hf) as (_ & _ & Hwin).
              rewrite Forall_forall in Hwin.
              destruct (Hwin (nv_date lr)) as [? _]; [by apply last_Some_elem_of|lia]. }
            rewrite Hmax in Hf'.
            by eapply (refetch_single_row _ _ _ w frame w0 _ w1).
          - pose proof (refetch_same _ _ _ _ _ _ _ _ _ Hs Hprov Hf Hf') as [= ->].
            destruct (rows frame) as [|[d p] [|? ?]]; [done| |done]. by exists d. }
        destruct Hone as [d Hd].
        by rewrite (single_row_segment _ _ _ _ _ Hc' Hd), app_nil_r.
      - by destruct Hinv as [-> _].
      - by apply only_requests_inputs in Hinv as [_ ->]. }
    destruct Hrun2' as [[Hu2 _]|(w3 & Hu2 & Hr2)].
    + rewrite (Hstep _ _ Hu2). done.
    + destruct (refresh_keeps_config _ _ _ _ _ _ Hr2) as [_ ->].
      rewrite (Hstep _ _ Hu2). done.
Qed.

End Rerun.

Lemma rerun_leaves_history_witness :
  (main Scenario.up_to_date).2 = Scenario.up_to_date
  ∧ (∃ w2',
       main (with_requests 5 Scenario.rebalanced_later)
       = ((main Scenario.rebalanced_later).1, w2')
       ∧ net_values_file w2' = net_values_file (main Scenario.rebalanced_later).2)
  ∧ net_values_file (main (main Scenario.rebalanced_later).2).2
    = net_values_file (main Scenario.rebalanced_later).2.
Proof.
  split; [|split].
  - destruct (main Scenario.up_to_date) as [r w'] eqn:Hrun.
    exact (proj1 rerun_leaves_history Scenario.up_to_date
             [NvRow 21 1%float 0%float; NvRow 22 1.25%float 0.25%float]
             (NvRow 22 1.25%float 0.25%float) r w' eq_refl eq_refl
             ltac:(cbn; lia) Hrun).
  - destruct (main Scenario.rebalanced_later) as [r1 w1] eqn:Hrun1. cbn [fst snd].
    apply (proj1 (proj2 rerun_leaves_history) Scenario.rebalanced_later
             (with_requests 5 Scenario.rebalanced_later) r1 w1);
      [intros n t; reflexivity|by repeat split|exact Hrun1].
  - destruct (main Scenario.rebalanced_later) as [r1 w1] eqn:Hrun1. cbn [snd].
    destruct (main w1) as [r2 w2] eqn:Hrun2. cbn [snd].
    exact (proj2 (proj2 rerun_leaves_history) Scenario.rebalanced_later r1 w1 r2 w2
             (fun n t => eq_refl) Hrun1 Hrun2).
Defined.

(** ** The orchestrator *)

(** C1: at a run on the day the history ends, [main] returns right after it
    finds the history up to date: no request is sent, and the live portfolio
    record, absent before the run, is absent after it. *)
Theorem up_to_date_run_skips_live_weights :
  main Scenario.up_to_date = (Ret, Scenario.up_to_date)
  ∧ portfolio_file Scenario.up_to_date = None.
Proof. split; [vm_compute|]; reflexivity. Qed.

Section FailedRuns.
Context {F : Type} `{!Numeric F}.
Implicit Types (w : @world F).


End FailedRuns.



(** C3: with a history that ends on day 10, a rebalance date of day 20 and a
    run on day 22, the segment is computed over the window from day 20; its
    first row is dated day 20, not day 10, and it is dropped all the same: the
    history written has the rows of days 10, 21 and 22, and none for day 20. *)
Theorem resume_drops_first_row_after_rebalance :
  ∃ frame w1 segment w',
    fetch_prices ["A"] (Z.max 20 10) 22 Scenario.rebalanced_later = (Val frame, w1)
    ∧ compute_net_values frame [1%float] 1.5%float = Val segment
    ∧ nv_date <$> segment = [20; 21; 22]
    ∧ main Scenario.rebalanced_later = (Val tt, w')
    ∧ nv_date <$> default [] (net_values_file w') = [10; 21; 22].
Proof.
  assert (Hr : (main Scenario.rebalanced_later).1 = Val tt)
    by (vm_compute; reflexivity).
  assert (Hd : nv_date <$> default [] (net_values_file (main Scenario.rebalanced_later).2)
               = [10; 21; 22]) by (vm_compute; reflexivity).
  destruct (main Scenario.rebalanced_later) as [r w']. cbn [fst snd] in Hr, Hd. subst r.
  eexists _, _, _, w'. split; [vm_compute; reflexivity|].
  split; [vm_compute; reflexivity|]. split; [reflexivity|]. split; [reflexivity|].
  exact Hd.
Qed.

(** * Further properties of the two scripts *)

Section Url.

Lemma append_cons c (a b : string) : String c a +:+ b = String c (a +:+ b).
Proof. reflexivity. Qed.

Lemma append_inv_head (s a b : string) : s +:+ a = s +:+ b → a = b.
Proof.
  induction s as [|c s IH]; [done|]. rewrite !append_cons. intros [= ?]. auto.
Qed.

Lemma append_length (a b : string) :
  String.length (a +:+ b) = (String.length a + String.length b)%nat.
Proof.
  induction a as [|c a IH]; [done|]. rewrite append_cons. simpl. by rewrite IH.
Qed.

Lemma append_inv_tail (a b s : string) : a +:+ s = b +:+ s → a = b.
Proof.
  revert b. induction a as [|c a IH]; intros [|c' b]; [done| | |].
  - intros Heq. apply (f_equal String.length) in Heq.
    rewrite !append_length in Heq. simpl in Heq. lia.
  - intros Heq. apply (f_equal String.length) in Heq.
    rewrite !append_length in Heq. simpl in Heq. lia.
  - rewrite !append_cons. intros [= -> ?]. f_equal. auto.
Qed.

Lemma append_assoc (a b c : string) : (a +:+ b) +:+ c = a +:+ (b +:+ c).
Proof.
  induction a as [|x a IH]; [done|]. rewrite !append_cons. by rewrite IH.
Qed.

(** X1: the request URL is one-to-one in the ticker for a given key, and the
    ticker and the key are put into it as they are, unescaped: a ticker that
    carries the text between the two, followed by a key, gives the URL of
    the bare ticker with a longer key. *)
Theorem symbol_call_verbatim :
  (∀ api_key t1 t2,
     _construct_alpha_vantage_symbol_call api_key t1
     = _construct_alpha_vantage_symbol_call api_key t2 → t1 = t2)
  ∧ (∀ ticker k1 k2,
       _construct_alpha_vantage_symbol_call k2
         (ticker +:+ "&outputsize=full&apikey=" +:+ k1)
       = _construct_alpha_vantage_symbol_call
           (k1 +:+ "&outputsize=full&apikey=" +:+ k2) ticker).
Proof.
  split.
  - intros api_key t1 t2. unfold _construct_alpha_vantage_symbol_call.
    intros Heq. do 5 apply append_inv_head in Heq.
    by apply append_inv_tail in Heq.
  - intros ticker k1 k2. unfold _construct_alpha_vantage_symbol_call.
    do 5 f_equal. by rewrite !append_assoc.
Qed.

End Url.

Lemma symbol_call_verbatim_witness : "AAPL" = "AAPL".
Proof.
  exact (proj1 symbol_call_verbatim "K" "AAPL" "AAPL" eq_refl).
Defined.

Section Rows.
Context {F : Type} `{!Numeric F}.

(** X2: [get_daily_historic_data] returns rows for a time series exactly
    when every bar of it dated from [start_date] to [end_date] converts
    (bars outside are not read); the rows are then exactly those bars, both
    ends included, each once, in strictly ascending order of date. *)
Theorem historic_rows_are_window_of_data (data : gmap Z (@series_bar F)) a b :
  ((∃ rows, historic_rows (TimeSeries data) a b = Val rows)
   ↔ ¬ bad_bar_in (TimeSeries data) a b)
  ∧ ∀ rows,
      historic_rows (TimeSeries data) a b = Val rows →
      (∀ d x, (d, x) ∈ rows ↔ data !! d = Some (ParsedBar x) ∧ a ≤ d ∧ d ≤ b)
      ∧ StronglySorted Z.lt rows.*1.
Proof.
  split.
  - destruct (historic_rows_cases (TimeSeries data) a b)
      as [(Hgood & _ & ->)|([Hbad|[[=]|(? & ? & [=])]] & e & ->)].
    + split; [done|eauto].
    + split; [by intros [rows [=]]|done].
  - intros rows [-> _]%historic_rows_Val. split.
    + intros d x. apply elem_of_kept_rows.
    + apply kept_rows_sorted.
Qed.

Lemma window_of_padded_rows (data : gmap Z (@series_bar F)) lo a b (l : list Z) :
  lo ≤ a →
  window_series (omap (kept data lo b) l) a b
  = (fun x => (x.1, bar_adjclose x.2)) <$> omap (kept data a b) l.
Proof.
  intros Hlo. unfold window_series, kept. induction l as [|d l IH]; [done|].
  cbn [omap list_omap].
  destruct (Z.ltb_spec d a) as [Hda|Hda].
  - cbn [orb]. destruct ((d <? lo) || (b <? d)); [exact IH|].
    destruct (data !! d) as [[x|e]|]; [|exact IH..].
    rewrite fmap_cons, filter_cons_False; [exact IH|].
    unfold in_window. cbn. lia.
  - rewrite (proj2 (Z.ltb_ge d lo)) by lia. cbn [orb].
    destruct (Z.ltb_spec b d) as [Hbd|Hbd]; [exact IH|].
    destruct (data !! d) as [[x|e]|]; [|exact IH..].
    rewrite !fmap_cons, filter_cons_True; [by rewrite IH|].
    unfold in_window. cbn. lia.
Qed.

(** Rows asked for from an earlier day on give the same series. *)
Lemma window_of_earlier_start (r : @response F) lo a b :
  lo ≤ a →
  window_series (kept_rows r lo b) a b
  = (fun x => (x.1, bar_adjclose x.2)) <$> kept_rows r a b.
Proof.
  intros Hlo. destruct r as [| | | | |data]; try done.
  unfold kept_rows. by apply window_of_padded_rows.
Qed.

(** X3: the seven days [fetch_prices] asks for ahead of [start_date] never
    show in the series it keeps: when the padded call returns, the call from
    [start_date] on returns too, and the series kept is the adjusted close
    of its rows, whatever the provider has for the days before. *)
Theorem padding_never_shows (r : @response F) a b rows :
  historic_rows r (a - 7) b = Val rows →
  ∃ rows',
    historic_rows r a b = Val rows'
    ∧ window_series rows a b = (fun x => (x.1, bar_adjclose x.2)) <$> rows'.
Proof.
  intros Hrows. exists (kept_rows r a b). split.
  - apply (historic_rows_narrow r (a - 7) a b rows); [lia|done].
  - apply historic_rows_Val in Hrows as [-> _]. apply window_of_earlier_start. lia.
Qed.

End Rows.

Lemma historic_rows_are_window_of_data_witness :
  ∃ rows,
    historic_rows (TimeSeries Scenario.bars_A) 21 22 = Val rows
    ∧ rows.*1 = [21; 22].
Proof.
  destruct (proj2 (proj1 (historic_rows_are_window_of_data Scenario.bars_A 21 22)))
    as [rows Hrows].
  - intros (data & d & e & Heq & Ha & Hb & Hd).
    assert (data = Scenario.bars_A) as -> by congruence.
    assert (d = 21 ∨ d = 22) as [-> | ->] by lia; vm_compute in Hd; discriminate.
  - exists rows. split; [exact Hrows|].
    assert (Hd : (Cases.value_or_nil
                    (historic_rows (TimeSeries Scenario.bars_A) 21 22)).*1 = [21; 22])
      by (vm_compute; reflexivity).
    rewrite Hrows in Hd. exact Hd.
Defined.

Lemma padding_never_shows_witness :
  ∃ rows',
    historic_rows (TimeSeries Scenario.bars_A) 21 22 = Val rows'
    ∧ window_series
        (Cases.value_or_nil (historic_rows (TimeSeries Scenario.bars_A) 14 22)) 21 22
      = (fun x => (x.1, bar_adjclose x.2)) <$> rows'.
Proof.
  apply (padding_never_shows (TimeSeries Scenario.bars_A) 21 22).
  vm_compute. reflexivity.
Defined.

Section FetchShape.
Context {F : Type} `{!Numeric F}.
Implicit Types (w : @world F).

(** What the loop of [fetch_prices] has requested when it stops. *)
Lemma fetch_series_requests tickers a b acc w r w' :
  fetch_series tickers a b acc w = (r, w') →
  match r with
  | Val _ => requests w' = (requests w + length tickers)%nat
  | Ret => False
  | Abort e =>
      ∃ i t, tickers !! i = Some t
             ∧ (e = NoDataReturned t ∨ e = NoDataInWindow t ∨ ∃ x, e = Uncaught x)
             ∧ requests w' = (requests w + S i)%nat
  end.
Proof.
  revert acc w. induction tickers as [|t ts IH]; intros acc w.
  - intros [= <- <-]. cbn. lia.
  - destruct (fetch_series_step t ts a b acc w) as [(x & _ & ->)|[_ ->]].
    { intros [= <- <-]. exists 0%nat, t. cbn. split; [done|]. split; [eauto|lia]. }
    destruct (answered_rows _ _ _ _ _) as [|x df].
    { intros [= <- <-]. exists 0%nat, t. cbn. split; [done|]. split; [auto|lia]. }
    destruct (window_series _ _ _) as [|y s].
    { intros [= <- <-]. exists 0%nat, t. cbn. split; [done|]. split; [auto|lia]. }
    intros Hrun. specialize (IH _ _ Hrun). destruct r as [sm| |e]; cbn in *.
    + lia.
    + done.
    + destruct IH as (i & t' & Hi & He & Hreq). exists (S i), t'.
      split; [done|]. split; [done|lia].
Qed.

Lemma fetch_prices_sent tickers a b w r w' :
  fetch_prices tickers a b w = (r, w') →
  (requests w' ≤ requests w + length tickers)%nat
  ∧ (∀ frame, r = Val frame → requests w' = (requests w + length tickers)%nat).
Proof.
  unfold fetch_prices.
  intros [(sm & w1 & Hs & Ha)|[[Hs ->]|(e & Hs & ->)]]%bind_inv;
    apply fetch_series_requests in Hs; cbn in Hs; [|done|].
  - injection Ha as Ha <-. split; [lia|]. intros; lia.
  - destruct Hs as (i & t & Hi & He & Hreq).
    pose proof (lookup_lt_Some _ _ _ Hi). split; [lia|done].
Qed.

(** X4: [fetch_prices] sends at most one request per ticker; exactly one per
    ticker when it returns a table; and when it stops on a ticker without
    data, that ticker's request was the last one sent. *)
Theorem fetch_prices_requests tickers a b w r w' :
  fetch_prices tickers a b w = (r, w') →
  (requests w' ≤ requests w + length tickers)%nat
  ∧ (∀ frame, r = Val frame → requests w' = (requests w + length tickers)%nat)
  ∧ (∀ e, r = Abort e → is_fetch_failure e = true →
       ∃ i t, tickers !! i = Some t
              ∧ (e = NoDataReturned t ∨ e = NoDataInWindow t)
              ∧ requests w' = (requests w + S i)%nat).
Proof.
  unfold fetch_prices.
  intros [(sm & w1 & Hs & Ha)|[[Hs ->]|(e & Hs & ->)]]%bind_inv;
    apply fetch_series_requests in Hs; cbn in Hs; [|done|].
  - injection Ha as Ha <-. split; [lia|]. split; [intros; lia|].
    intros e -> Hfail. unfold align in Ha.
    destruct sm; [by injection Ha as <-|].
    destruct (inner_join _); [by injection Ha as <-|].
    case_decide; [done|]. by injection Ha as <-.
  - destruct Hs as (i & t & Hi & He & Hreq).
    pose proof (lookup_lt_Some _ _ _ Hi). split; [lia|]. split; [done|].
    intros e' [= <-] Hfail. exists i, t. split; [done|]. split; [|done].
    destruct He as [?|[?|[x ->]]]; [by left|by right|done].
Qed.

Lemma dict_set_fresh {V} k (v : V) (d : list (string * V)) :
  k ∉ d.*1 → dict_set k v d = d ++ [(k, v)].
Proof.
  induction d as [|[k' v'] d IH]; cbn; [done|].
  intros Hk. apply not_elem_of_cons in Hk as [? ?].
  destruct (decide (k = k')); [done|]. f_equal. auto.
Qed.

Lemma dict_set_length {V} k (v : V) (d : list (string * V)) :
  length (dict_set k v d) = if decide (k ∈ d.*1) then length d else S (length d).
Proof.
  induction d as [|[k' v'] d IH]; cbn.
  - rewrite decide_False by apply not_elem_of_nil. reflexivity.
  - destruct (decide (k = k')) as [->|Hk].
    + rewrite decide_True by (apply elem_of_cons; by left). reflexivity.
    + cbn. rewrite IH. destruct (decide (k ∈ d.*1)).
      * rewrite decide_True by (apply elem_of_cons; by right). reflexivity.
      * rewrite decide_False by (by apply not_elem_of_cons). reflexivity.
Qed.

Lemma fetch_series_length tickers a b acc w sm w' :
  fetch_series tickers a b acc w = (Val sm, w') →
  (length sm ≤ length acc + length tickers)%nat.
Proof.
  revert acc w. induction tickers as [|t ts IH]; intros acc w.
  - intros [= <- <-]. cbn. lia.
  - destruct (fetch_series_step t ts a b acc w) as [(x & _ & ->)|[_ ->]]; [done|].
    destruct (answered_rows _ _ _ _ _) as [|x df]; [done|].
    destruct (window_series _ _ _) as [|y s]; [done|].
    intros Hrun%IH. rewrite dict_set_length in Hrun. cbn.
    destruct (decide _); lia.
Qed.

(** When the loop ends with as many series as tickers, the tickers are
    distinct and the series are those of the answers, in the order of the
    tickers. *)
Lemma fetch_series_full tickers a b acc w sm w' :
  fetch_series tickers a b acc w = (Val sm, w') →
  length sm = (length acc + length tickers)%nat →
  NoDup tickers ∧ (∀ t, t ∈ tickers → t ∉ acc.*1)
  ∧ sm = acc ++ imap (fun i t => (t, answered_series w a b i t)) tickers.
Proof.
  revert acc w. induction tickers as [|t ts IH]; intros acc w.
  - intros [= <- <-] _. split; [constructor|]. split; [by intros ? ?%elem_of_nil|].
    by rewrite app_nil_r.
  - destruct (fetch_series_step t ts a b acc w) as [(x & _ & ->)|[_ ->]]; [done|].
    destruct (answered_rows w a b 0 t) as [|x df] eqn:Hrows; [done|].
    destruct (window_series (x :: df) a b) as [|y s] eqn:Hser; [done|].
    intros Hrun Hlen. cbn in Hlen.
    pose proof (fetch_series_length _ _ _ _ _ _ _ Hrun) as Hle.
    rewrite dict_set_length in Hle.
    destruct (decide (t ∈ acc.*1)) as [Hin|Hnotin]; [lia|].
    rewrite (dict_set_fresh _ _ _ Hnotin) in Hrun.
    destruct (IH _ _ Hrun) as (Hnd & Hdisj & ->).
    { rewrite length_app. cbn. lia. }
    split; [|split].
    + constructor; [|done]. intros Hts. apply (Hdisj t Hts).
      rewrite fmap_app. apply elem_of_app. right. by left.
    + intros t' [->|Ht']%elem_of_cons; [done|].
      intros Hacc. apply (Hdisj t' Ht'). rewrite fmap_app. apply elem_of_app. by left.
    + rewrite <- app_assoc. f_equal. cbn. f_equal.
      * unfold answered_series. by rewrite Hrows, Hser.
      * apply imap_ext. intros i t' _. cbn. by rewrite answered_series_count.
Qed.

Lemma answered_series_elem w a b i t d p :
  (d, p) ∈ answered_series w a b i t
  ↔ ∃ data x, provider w (requests w + i) t = TimeSeries data
              ∧ data !! d = Some (ParsedBar x) ∧ p = bar_adjclose x ∧ a ≤ d ∧ d ≤ b.
Proof.
  unfold answered_series, answered_rows.
  rewrite window_of_earlier_start by lia.
  rewrite list_elem_of_fmap. split.
  - intros ([d' x] & [= -> ->] & Hx).
    destruct (provider w (requests w + i) t) as [| | | | |data] eqn:Hp;
      try (by apply elem_of_nil in Hx).
    apply elem_of_kept_rows in Hx as (? & ? & ?). eauto 10.
  - intros (data & x & -> & Hx & -> & Ha & Hb). exists (d, x). split; [done|].
    by apply elem_of_kept_rows.
Qed.

(** A table comes back only for tickers that are distinct, and at least
    one; each of its rows has a cell per ticker. *)
Lemma fetch_prices_distinct tickers a b w frame w' :
  fetch_prices tickers a b w = (Val frame, w') →
  NoDup tickers ∧ tickers ≠ []
  ∧ ∀ d cells, (d, cells) ∈ rows frame → length cells = length tickers.
Proof.
  intros (sm & w1 & Hs & -> & Ha)%fetch_prices_Val.
  apply align_Val_rows in Ha as (Hne & _ & Hrows & _ & Hlen).
  destruct (fetch_series_full _ _ _ _ _ _ _ Hs) as (Hnd & _ & Hsm); [by cbn|].
  split; [done|]. split; [intros ->; by destruct sm|].
  intros d cells Hin. rewrite Hrows in Hin.
  apply inner_join_cells in Hin; [|by destruct sm].
  apply Forall2_length in Hin. rewrite length_fmap in Hin. lia.
Qed.

(** X5: the table [fetch_prices] returns, read against the answers of the
    provider: its columns are the tickers; it has a row for a date exactly
    when the date lies in the window and every ticker's answer has a bar for
    it; each row has one cell per ticker, the adjusted close of that ticker's
    bar for the date. *)
Theorem fetch_prices_table tickers a b w frame w' :
  fetch_prices tickers a b w = (Val frame, w') →
  columns frame = tickers
  ∧ (∀ d, d ∈ (rows frame).*1
          ↔ a ≤ d ∧ d ≤ b
            ∧ ∀ i t, tickers !! i = Some t →
                     ∃ data x, provider w (requests w + i) t = TimeSeries data
                               ∧ data !! d = Some (ParsedBar x))
  ∧ (∀ d cells, (d, cells) ∈ rows frame →
       length cells = length tickers
       ∧ ∀ i t, tickers !! i = Some t →
                ∃ data x, provider w (requests w + i) t = TimeSeries data
                          ∧ data !! d = Some (ParsedBar x)
                          ∧ cells !! i = Some (bar_adjclose x)).
Proof.
  intros Hf. pose proof (fetch_prices_dates _ _ _ _ _ _ Hf) as (_ & _ & Hwin).
  apply fetch_prices_Val in Hf as (sm & w1 & Hs & -> & Ha).
  apply align_Val_rows in Ha as (Hne & Hcols & Hrows & _ & Hlen).
  destruct (fetch_series_full _ _ _ _ _ _ _ Hs) as (_ & _ & Hsm); [by cbn|].
  cbn in Hsm.
  assert (Hss : sm.*2 = imap (fun i t => answered_series w a b i t) tickers).
  { rewrite Hsm, fmap_imap. by apply imap_ext. }
  assert (Hne2 : sm.*2 ≠ []) by (by destruct sm).
  split; [done|]. rewrite Hrows in Hwin |- *. split.
  - intros d. rewrite elem_of_inner_join_dates by done. rewrite Hss. split.
    + intros Hall. rewrite Forall_forall in Hwin.
      assert (Hd : in_window a b d).
      { apply Hwin, elem_of_inner_join_dates; [done|]. by rewrite Hss. }
      destruct Hd as [? ?]. split; [done|]. split; [done|].
      intros i t Hi.
      assert (Hin : d ∈ (answered_series w a b i t).*1).
      { apply Hall, list_elem_of_lookup. exists i.
        by rewrite list_lookup_imap, Hi. }
      apply list_elem_of_fmap in Hin as ([d' p] & -> & Hp).
      apply answered_series_elem in Hp as (data & x & ? & ? & _). eauto.
    + intros (Ha & Hb & Hall) s (i & Hi)%list_elem_of_lookup.
      rewrite list_lookup_imap in Hi.
      destruct (tickers !! i) as [t|] eqn:Ht; [|done]. injection Hi as <-.
      destruct (Hall i t Ht) as (data & x & Hp & Hx).
      apply list_elem_of_fmap. exists (d, bar_adjclose x). split; [done|].
      apply answered_series_elem. eauto 10.
  - intros d cells Hin%inner_join_cells; [|done]. rewrite Hss in Hin.
    pose proof (Forall2_length _ _ _ Hin) as Hl. rewrite length_imap in Hl.
    split; [done|]. intros i t Hi.
    assert (His : imap (fun i t => answered_series w a b i t) tickers !! i
                  = Some (answered_series w a b i t)).
    { by rewrite list_lookup_imap, Hi. }
    destruct (Forall2_lookup_l _ _ _ _ _ Hin His) as (p & Hp & Hdp).
    apply answered_series_elem in Hdp as (data & x & ? & ? & -> & _). eauto.
Qed.

(** X6: [fetch_prices] returns no table for an empty list of tickers, nor
    for a list that names a ticker twice: the series of the second
    occurrence takes the place of the first in [series_map], and the column
    names no longer fit. *)
Theorem fetch_prices_wants_distinct_tickers tickers a b w r w' :
  fetch_prices tickers a b w = (r, w') →
  tickers = [] ∨ ¬ NoDup tickers →
  ∃ e, r = Abort e.
Proof.
  intros Hf Hbad. pose proof (fetch_prices_frame _ _ _ _ _ _ Hf) as [_ Hnr].
  destruct r as [frame| |e]; [|done|eauto]. exfalso.
  apply fetch_prices_distinct in Hf as (Hnd & Hne & _).
  by destruct Hbad.
Qed.

End FetchShape.

Lemma fetch_prices_requests_witness :
  (requests (fetch_prices ["A"; "B"] 20 22 Scenario.rate_limited).2 ≤ 0 + 2)%nat.
Proof.
  destruct (fetch_prices ["A"; "B"] 20 22 Scenario.rate_limited) as [r w'] eqn:Hrun.
  exact (proj1 (fetch_prices_requests _ _ _ _ _ _ Hrun)).
Defined.

Lemma fetch_prices_table_witness :
  ∃ frame w',
    fetch_prices ["A"] 20 22 Cases.first_run = (Val frame, w')
    ∧ columns frame = ["A"].
Proof.
  assert (Hr : ∃ frame, (fetch_prices ["A"] 20 22 Cases.first_run).1 = Val frame)
    by (eexists; vm_compute; reflexivity).
  destruct Hr as [frame Hr].
  destruct (fetch_prices ["A"] 20 22 Cases.first_run) as [r w'] eqn:Hrun.
  cbn [fst] in Hr. subst r. exists frame, w'. split; [reflexivity|].
  exact (proj1 (fetch_prices_table _ _ _ _ _ _ Hrun)).
Defined.

Lemma fetch_prices_wants_distinct_tickers_witness :
  ∃ e, (fetch_prices ["A"; "A"] 20 22 Cases.first_run).1 = Abort e.
Proof.
  destruct (fetch_prices ["A"; "A"] 20 22 Cases.first_run) as [r w'] eqn:Hrun.
  apply (fetch_prices_wants_distinct_tickers _ _ _ _ _ _ Hrun).
  right. intros Hnd. apply NoDup_cons in Hnd as [Hnotin _]. apply Hnotin.
  apply elem_of_cons. by left.
Defined.

Section RunBounds.
Context {F : Type} `{!Numeric F}.
Implicit Types (w : @world F).

(** Both phases of [main] fetch a table, compute from it and write one
    record. *)
Lemma fetch_compute_write {A} tickers a b (g : @price_frame F → result A)
    (h : A → @world F → @world F) w r w' :
  (∀ x w0, requests (h x w0) = requests w0) →
  (fetch_prices tickers a b ≫= fun frame => lift (g frame) ≫= fun x => modify (h x)) w
  = (r, w') →
  (requests w ≤ requests w' ≤ requests w + length tickers)%nat
  ∧ (r = Val tt → requests w' = (requests w + length tickers)%nat).
Proof.
  intros Hh [(frame & w1 & Hf & Hk)|[[Hf ->]|(e & Hf & ->)]]%bind_inv;
    pose proof (fetch_prices_frame _ _ _ _ _ _ Hf) as [[_ Hle] _];
    destruct (fetch_prices_sent _ _ _ _ _ _ Hf) as (Hub & Hval).
  - specialize (Hval _ eq_refl).
    apply bind_inv in Hk as [(x & w2 & Hl & Hw)|[[Hl ->]|(e & Hl & ->)]];
      injection Hl as Hl <-.
    + injection Hw as <- <-. rewrite Hh. lia.
    + split; [lia|done].
    + split; [lia|done].
  - split; [lia|done].
  - split; [lia|done].
Qed.

Lemma update_history_requests rebalance_date base_portfolio existing_df today w r w' :
  update_history rebalance_date base_portfolio existing_df today w = (r, w') →
  (requests w ≤ requests w' ≤ requests w + length base_portfolio)%nat
  ∧ (r = Val tt → requests w' = (requests w + length base_portfolio)%nat).
Proof.
  unfold update_history.
  replace (length base_portfolio) with (length (tickers_of base_portfolio))
    by apply length_fmap.
  destruct existing_df as [existing|]; cbn [mbind option_bind];
    [destruct (last existing) as [last_row|]|].
  - case_decide.
    { intros [= <- <-]. split; [lia|done]. }
    by apply fetch_compute_write.
  - case_decide.
    { intros [= <- <-]. split; [lia|done]. }
    by apply fetch_compute_write.
  - case_decide.
    { intros [= <- <-]. split; [lia|done]. }
    by apply fetch_compute_write.
Qed.

Lemma refresh_live_weights_requests rebalance_date base_portfolio today w r w' :
  refresh_live_weights rebalance_date base_portfolio today w = (r, w') →
  (requests w ≤ requests w' ≤ requests w + length base_portfolio)%nat
  ∧ (r = Val tt → requests w' = (requests w + length base_portfolio)%nat).
Proof.
  unfold refresh_live_weights.
  replace (length base_portfolio) with (length (tickers_of base_portfolio))
    by apply length_fmap.
  by apply fetch_compute_write.
Qed.

Lemma update_history_config rebalance_date base_portfolio existing_df today w r w' :
  update_history rebalance_date base_portfolio existing_df today w = (r, w') →
  same_config w w' ∧ portfolio_file w' = portfolio_file w.
Proof.
  intros Hu. pose proof (update_history_inv _ _ _ _ _ _ _ Hu) as Hinv.
  destruct r as [[]| |e].
  - destruct Hinv as (w1 & frame & seg & [(ex & lr & _ & _ & _ & Hf & _ & ->)
                                          |(_ & _ & Hf & _ & ->)]);
      apply fetch_prices_frame in Hf as [[-> _] _]; by repeat split.
  - destruct Hinv as [-> _]. by repeat split.
  - destruct Hinv as [-> _]. by repeat split.
Qed.

Lemma load_base_portfolio_rows w base :
  load_base_portfolio w = (Val base, w) →
  ∃ df, base_file w = Some (BaseRows df) ∧ entry_row <$> base = df.
Proof.
  unfold load_base_portfolio. destruct (base_file w) as [[|df]|]; [done| |done].
  destruct (num_le0 _); [done|]. intros [= <-]. exists df. split; [done|].
  rewrite <- list_fmap_compose. apply list_fmap_id.
Qed.

(** X7: whatever way a run ends, what it reads is as before (the key, the
    meta file, the base table, the legacy history, the clock), and it has
    sent at most two requests per row of the base table; none when the base
    table could not be read. *)
Theorem run_stays_within_budget w r w' :
  main w = (r, w') →
  same_config w w'
  ∧ (requests w ≤ requests w')%nat
  ∧ (requests w' ≤ requests w
       + 2 * match base_file w with
             | Some (BaseRows df) => length df
             | _ => 0%nat
             end)%nat.
Proof.
  intros [[-> _]|(rb & base & ex & Hpre & Hrun)]%main_inv.
  { split; [by repeat split|lia]. }
  destruct Hpre as (_ & _ & Hbase & _).
  apply load_base_portfolio_rows in Hbase as (df & -> & <-).
  rewrite length_fmap.
  destruct Hrun as [[Hu _]|(w1 & Hu & Hr)].
  - pose proof (update_history_config _ _ _ _ _ _ _ Hu) as [Hc _].
    apply update_history_requests in Hu as [? _]. split; [done|lia].
  - pose proof (update_history_config _ _ _ _ _ _ _ Hu) as [Hc _].
    apply update_history_requests in Hu as [? _].
    pose proof (refresh_keeps_config _ _ _ _ _ _ Hr) as [Hc2 _].
    apply refresh_live_weights_requests in Hr as [? _].
    split; [|lia].
    destruct Hc as (? & ? & ? & ? & ? & ? & ?), Hc2 as (? & ? & ? & ? & ? & ? & ?).
    repeat split; congruence.
Qed.

Lemma live_rows_mirror (total : F) (base : list (@base_entry F)) (vs : list F) :
  length vs = length base →
  Forall2 (fun row out => ticker out = ticker row
                          ∧ stock_name out = stock_name row
                          ∧ reason out = reason row)
          (entry_row <$> base) (zip_with (live_row total) base vs).
Proof.
  revert vs. induction base as [|e es IH]; intros [|v vs] Hv; cbn in *;
    try done; constructor; [done|]. apply IH. lia.
Qed.

(** X8: a run that ends without error and without the early return has
    written both records: a net-value history with a row, and a live
    portfolio with the rows of the base table in their order, same ticker,
    stock name and reason.  The tickers of the base table are then distinct,
    and exactly two requests per ticker were sent. *)
Theorem completed_run_writes_both w w' :
  main w = (Val tt, w') →
  ∃ df history live,
    base_file w = Some (BaseRows df)
    ∧ NoDup (ticker <$> df) ∧ df ≠ []
    ∧ net_values_file w' = Some history ∧ history ≠ []
    ∧ portfolio_file w' = Some live
    ∧ Forall2 (fun row out => ticker out = ticker row
                              ∧ stock_name out = stock_name row
                              ∧ reason out = reason row) df live
    ∧ requests w' = (requests w + 2 * length df)%nat.
Proof.
  intros [[_ [e [=]]]|(rb & base & ex & Hpre & Hrun)]%main_inv.
  destruct Hrun as [[_ ?]|(w1 & Hu & Hr)]; [done|].
  destruct Hpre as (_ & _ & Hbase & _).
  apply load_base_portfolio_rows in Hbase as (df & Hdf & Hrows).
  pose proof (update_history_requests _ _ _ _ _ _ _ Hu) as [_ Hn1].
  pose proof (refresh_live_weights_requests _ _ _ _ _ _ Hr) as [_ Hn2].
  specialize (Hn1 eq_refl). specialize (Hn2 eq_refl).
  assert (Hlen : length base = length df) by (by rewrite <- Hrows, length_fmap).
  assert (Htk : tickers_of base = ticker <$> df).
  { rewrite <- Hrows. unfold tickers_of. by rewrite <- list_fmap_compose. }
  apply refresh_live_weights_inv in Hr as (w2 & frame & live & Hf & Hl & ->).
  pose proof (fetch_prices_frame _ _ _ _ _ _ Hf) as [[Hw2 _] _].
  assert (Hnv1 : ∃ history, net_values_file w1 = Some history ∧ history ≠ []).
  { apply update_history_inv in Hu
      as (w0 & fr & seg & [(ex0 & lr & _ & Hlast & _ & _ & _ & ->)
                           |(_ & _ & Hf0 & Hc & ->)]).
    - exists (ex0 ++ tail seg). split; [done|]. destruct ex0; done.
    - exists seg. split; [done|].
      apply fetch_prices_dates in Hf0 as (Hne & _).
      apply compute_net_values_dates in Hc. intros ->. cbn in Hc.
      destruct (rows fr); done. }
  destruct Hnv1 as (history & Hh & Hhne).
  pose proof (fetch_prices_distinct _ _ _ _ _ _ Hf) as (Hnd & Hne & Hcells).
  exists df, history, live. split; [done|]. split; [|split; [|split; [|split; [|split; [|split]]]]].
  - by rewrite <- Htk.
  - intros ->. by rewrite Htk in Hne.
  - rewrite Hw2. cbn. done.
  - done.
  - done.
  - unfold update_live_weights in Hl.
    destruct (rows frame) as [|[d0 p0] rest] eqn:Hrows0; [done|].
    destruct (last ((d0, p0) :: rest)) as [[dN pN]|] eqn:Hlast; [|done].
    injection Hl as <-.
    assert (H0 : length p0 = length base).
    { rewrite (Hcells d0 p0) by (apply elem_of_cons; by left).
      apply length_fmap. }
    assert (HN : length pN = length base).
    { rewrite (Hcells dN pN) by (by apply last_Some_elem_of).
      apply length_fmap. }
    assert (Hv : length (latest_values base pN p0) = length base).
    { unfold latest_values.
      rewrite length_zip_with_l_eq; rewrite ?length_fmap; [done|].
      rewrite length_zip_with_l_eq; lia. }
    rewrite <- Hrows. by apply live_rows_mirror.
  - lia.
Qed.

(** X9: without a history (no candidate file, or none with a row), a run on
    or before the rebalance date ends with [BeforeRebalance] before any
    request is sent or any record written. *)
Theorem first_run_waits_for_rebalance w rebalance_date base_portfolio existing_df :
  prelude w rebalance_date base_portfolio existing_df →
  existing_df ≫= last = None →
  clock w ≤ rebalance_date →
  main w = (Abort BeforeRebalance, w).
Proof.
  intros ([key Hkey] & Hrb & Hbase & Hex) Hnone Hle. unfold main.
  rewrite (bind_Val _ _ _ _ _ Hkey), (bind_Val _ _ _ _ _ Hrb),
    (bind_Val _ _ _ _ _ Hbase), (bind_Val _ _ _ _ _ Hex).
  rewrite (bind_Val (ask clock) _ w (clock w) w eq_refl).
  assert (Hu : update_history rebalance_date base_portfolio existing_df (clock w) w
               = (Abort BeforeRebalance, w)).
  { unfold update_history. destruct existing_df as [existing|]; cbn [mbind option_bind] in *.
    - rewrite Hnone. by rewrite decide_True.
    - by rewrite decide_True. }
  by rewrite (bind_Abort _ _ _ _ _ Hu).
Qed.

Lemma kept_rows_empty_window (r : @response F) a b :
  b < a → kept_rows r a b = [].
Proof.
  intros Hlt. destruct r as [| | | | |data]; try done.
  destruct (kept_rows (TimeSeries data) a b) as [|[d x] l] eqn:Hl; [done|].
  assert (Hin : (d, x) ∈ kept_rows (TimeSeries data) a b) by (rewrite Hl; by left).
  apply elem_of_kept_rows in Hin. lia.
Qed.

Lemma fetch_prices_empty_window tickers a b w r w' :
  b < a → fetch_prices tickers a b w = (r, w') →
  (∃ e, r = Abort e) ∧ only_requests w w' ∧ (requests w' ≤ S (requests w))%nat.
Proof.
  intros Hlt. unfold fetch_prices. destruct tickers as [|t ts].
  - intros [= <- <-]. split; [eauto|]. split; [apply only_requests_refl|lia].
  - assert (Hs : ∃ e, fetch_series (t :: ts) a b [] w = (Abort e, count_request w)).
    { destruct (fetch_series_step t ts a b [] w) as [(x & _ & ->)|[_ ->]]; [eauto|].
      destruct (answered_rows w a b 0 t) as [|x df] eqn:Hrows; [eauto|].
      rewrite <- Hrows. unfold answered_rows.
      rewrite window_of_earlier_start, kept_rows_empty_window by lia. eauto. }
    destruct Hs as [e Hs]. rewrite (bind_Abort _ _ _ _ _ Hs). intros [= <- <-].
    split; [eauto|]. split; [apply only_requests_count|cbn; lia].
Qed.

(** X10: while the rebalance date lies after today no run goes through: it
    writes no record and sends at most one request.  (With a history that
    ended before today the window from the rebalance date to today is empty,
    and the first ticker gets no series.) *)
Theorem future_rebalance_blocks_run w rebalance_date r w' :
  meta_file w = Some (Some rebalance_date) →
  clock w < rebalance_date →
  main w = (r, w') →
  r ≠ Val tt ∧ only_requests w w' ∧ (requests w' ≤ S (requests w))%nat.
Proof.
  intros Hmeta Hlt [[-> [e ->]]|(rb & base & ex & Hpre & Hrun)]%main_inv.
  { split; [done|]. split; [apply only_requests_refl|lia]. }
  assert (rb = rebalance_date) as ->.
  { destruct Hpre as (_ & Hrb & _). unfold load_rebalance_date in Hrb.
    rewrite Hmeta in Hrb. by injection Hrb. }
  assert (Hu : ∀ r1 w1,
    update_history rebalance_date base ex (clock w) w = (r1, w1) →
    r1 ≠ Val tt ∧ only_requests w w1 ∧ (requests w1 ≤ S (requests w))%nat).
  { intros r1 w1. unfold update_history.
    destruct ex as [existing|]; cbn [mbind option_bind];
      [destruct (last existing) as [last_row|]|].
    - case_decide.
      { intros [= <- <-]. split; [done|]. split; [apply only_requests_refl|lia]. }
      intros [(frame & w2 & Hf & _)|[[Hf ->]|(e & Hf & ->)]]%bind_inv;
        apply fetch_prices_empty_window in Hf as ([e' [=]] & ? & ?); try lia; done.
    - rewrite decide_True by lia. intros [= <- <-].
      split; [done|]. split; [apply only_requests_refl|lia].
    - rewrite decide_True by lia. intros [= <- <-].
      split; [done|]. split; [apply only_requests_refl|lia]. }
  destruct Hrun as [[Hrun _]|(w1 & Hrun & _)]; apply Hu in Hrun; [done|].
  by destruct Hrun.
Qed.

End RunBounds.

Lemma run_stays_within_budget_witness :
  (requests (main Cases.first_run).2 ≤ 0 + 2 * 1)%nat.
Proof.
  destruct (main Cases.first_run) as [r w'] eqn:Hrun.
  exact (proj2 (proj2 (run_stays_within_budget _ _ _ Hrun))).
Defined.

Lemma completed_run_writes_both_witness :
  ∃ history live,
    net_values_file (main Cases.first_run).2 = Some history
    ∧ portfolio_file (main Cases.first_run).2 = Some live
    ∧ requests (main Cases.first_run).2 = 2%nat.
Proof.
  assert (Hr : (main Cases.first_run).1 = Val tt) by (vm_compute; reflexivity).
  destruct (main Cases.first_run) as [r w'] eqn:Hrun. cbn [fst snd] in *. subst r.
  destruct (completed_run_writes_both _ _ Hrun)
    as (df & history & live & Hdf & _ & _ & Hh & _ & Hl & _ & Hn).
  exists history, live. split; [done|]. split; [done|].
  injection Hdf as <-. exact Hn.
Defined.

Lemma first_run_waits_for_rebalance_witness :
  main Cases.too_early = (Abort BeforeRebalance, Cases.too_early).
Proof.
  apply (first_run_waits_for_rebalance Cases.too_early 20
           [BaseEntry (BaseRow "A" (Some "Alpha") 100%float (Some "core")) 1%float]
           None).
  - split; [by exists "key"|]. split; [reflexivity|]. split; [|reflexivity].
    vm_compute. reflexivity.
  - reflexivity.
  - cbn. lia.
Defined.

Lemma future_rebalance_blocks_run_witness :
  (main Cases.rebalance_ahead).1 ≠ Val tt
  ∧ (requests (main Cases.rebalance_ahead).2 ≤ 1)%nat.
Proof.
  destruct (main Cases.rebalance_ahead) as [r w'] eqn:Hrun.
  destruct (future_rebalance_blocks_run Cases.rebalance_ahead 20 r w' eq_refl
              ltac:(cbn; lia) Hrun) as (? & _ & ?).
  by split.
Defined.

Section Histories.
Context {F : Type} `{!Numeric F}.

Lemma drop_duplicates_dates (df : list (@nv_row F)) d :
  d ∈ nv_date <$> drop_duplicates_keep_last df ↔ d ∈ nv_date <$> df.
Proof.
  induction df as [|r df IH]; cbn; [done|].
  case_decide as Hin.
  - rewrite IH, elem_of_cons. split; [auto|]. by intros [->|?].
  - by rewrite !fmap_cons, !elem_of_cons, IH.
Qed.

(** X11: [load_net_values] leaves rows of the file only, in strictly
    ascending order of date, with every date of the file and no other; a
    file without repeated dates keeps all its rows; and loading what was
    loaded changes nothing. *)
Theorem load_net_values_normalises (csv : list (@nv_row F)) :
  StronglySorted Z.lt (nv_date <$> load_net_values csv)
  ∧ (∀ d, d ∈ nv_date <$> load_net_values csv ↔ d ∈ nv_date <$> csv)
  ∧ (∀ r, r ∈ load_net_values csv → r ∈ csv)
  ∧ (NoDup (nv_date <$> csv) → load_net_values csv ≡ₚ csv)
  ∧ load_net_values (load_net_values csv) = load_net_values csv.
Proof.
  split; [apply load_net_values_strict|]. split; [|split; [|split]].
  - intros d. unfold load_net_values.
    by rewrite drop_duplicates_dates, sort_values_perm.
  - intros r Hr%elem_of_drop_duplicates. by rewrite sort_values_perm in Hr.
  - intros Hnd. unfold load_net_values. rewrite drop_duplicates_id.
    + apply sort_values_perm.
    + by rewrite sort_values_perm.
  - apply load_net_values_id, load_net_values_strict.
Qed.

End Histories.

Lemma load_net_values_normalises_witness :
  load_net_values [NvRow 16 2%float 1%float; NvRow 5 1%float 0%float]
  ≡ₚ [NvRow 16 2%float 1%float; NvRow 5 1%float 0%float].
Proof.
  apply (proj1 (proj2 (proj2 (proj2 (load_net_values_normalises
           [NvRow 16 2%float 1%float; NvRow 5 1%float 0%float]))))).
  cbn. apply NoDup_cons. split.
  - intros [Heq|Hin]%elem_of_cons; [done|]. by apply elem_of_nil in Hin.
  - apply NoDup_singleton.
Defined.

Section FloatBase.

Lemma add_all_zeros (l : list float) :
  Forall (fun x => x = 0%float) l → add_all 0%float l = 0%float.
Proof.
  unfold add_all. induction 1 as [|x l -> _ IH]; [done|]. exact IH.
Qed.

Lemma add_blocks_zeros blocks (lanes l : list float) :
  Forall (fun x => x = 0%float) lanes → Forall (fun x => x = 0%float) l →
  Forall (fun x => x = 0%float) (add_blocks blocks lanes l).1
  ∧ Forall (fun x => x = 0%float) (add_blocks blocks lanes l).2.
Proof.
  revert lanes l. induction blocks as [|n IH]; intros lanes l Hlanes Hl; [done|].
  cbn [add_blocks]. apply IH; [|by apply Forall_drop].
  apply Forall_forall. intros x (i & Hi)%list_elem_of_lookup.
  apply lookup_zip_with_Some in Hi as (u & v & -> & Hu & Hv).
  rewrite Forall_forall in Hlanes. rewrite Forall_forall in Hl.
  rewrite (Hlanes u (list_elem_of_lookup_2 _ _ _ Hu)).
  apply lookup_take_Some in Hv as [Hv _].
  by rewrite (Hl v (list_elem_of_lookup_2 _ _ _ Hv)).
Qed.

Lemma add_lanes_zeros (lanes : list float) :
  Forall (fun x => x = 0%float) lanes → add_lanes lanes = 0%float.
Proof.
  intros H. unfold add_lanes.
  repeat (destruct lanes as [|? lanes]; [done|];
          apply Forall_cons in H as [-> H]).
  by destruct lanes.
Qed.

Lemma unrolled_sum_zeros (l : list float) :
  Forall (fun x => x = 0%float) l → unrolled_sum l = 0%float.
Proof.
  intros Hl. unfold unrolled_sum.
  destruct (add_blocks_zeros (length l / 8 - 1) (take 8 l) (drop 8 l))
    as [Hlanes Hrest]; [by apply Forall_take|by apply Forall_drop|].
  destruct (add_blocks _ _ _) as [lanes rest]. cbn [fst snd] in *.
  by rewrite (add_lanes_zeros _ Hlanes), add_all_zeros.
Qed.

Lemma pairwise_sum_zeros fuel (l : list float) :
  Forall (fun x => x = 0%float) l → pairwise_sum_aux fuel l = 0%float.
Proof.
  revert l. induction fuel as [|fuel IH]; intros l Hl; cbn [pairwise_sum_aux];
    repeat case_match; try (by apply add_all_zeros); try (by apply unrolled_sum_zeros).
  rewrite !IH; [done|by apply Forall_drop|by apply Forall_take].
Qed.

Lemma series_sum_of_missing (l : list float) :
  Forall (fun x => PrimFloat.is_nan x = true) l → series_sum l = 0%float.
Proof.
  intros Hl. unfold series_sum, pairwise_sum. rewrite pairwise_sum_zeros; [done|].
  unfold skipna. apply Forall_fmap, Forall_forall. intros x Hx.
  rewrite Forall_forall in Hl. cbn. by rewrite (Hl x Hx).
Qed.

(** X13: on binary64 numbers, a base table whose weights are all missing
    (not a number), an empty table among them, is refused with
    [BaseWeightsNotPositive]: the sum skips what is missing, and is 0. *)
Theorem unweighted_base_is_refused (w : @world float) df :
  base_file w = Some (BaseRows df) →
  Forall (fun r => PrimFloat.is_nan (weight r) = true) df →
  load_base_portfolio w = (Abort BaseWeightsNotPositive, w).
Proof.
  intros Hfile Hnan. unfold load_base_portfolio. rewrite Hfile.
  assert (Hsum : series_sum (weight <$> df) = 0%float).
  { apply series_sum_of_missing. by apply Forall_fmap. }
  by rewrite Hsum.
Qed.

End FloatBase.

Lemma unweighted_base_is_refused_witness :
  load_base_portfolio Cases.unweighted = (Abort BaseWeightsNotPositive, Cases.unweighted).
Proof.
  apply (unweighted_base_is_refused Cases.unweighted Cases.unweighted_rows eq_refl).
  repeat constructor.
Defined.

Section FirstRun.
Context {F : Type} `{!Numeric F}.
Implicit Types (w : @world F).

(** X16: on a first run that goes through, with a provider that gives each
    ticker the same answer at every request, the history written and the
    live weights come from one and the same price table, fetched twice: the
    dates of the history are the dates of that table, all from the rebalance
    date to today. *)
Theorem first_run_uses_one_table w rebalance_date base_portfolio existing_df w' :
  steady w →
  prelude w rebalance_date base_portfolio existing_df →
  existing_df ≫= last = None →
  main w = (Val tt, w') →
  ∃ frame history live,
    compute_net_values frame (weight_frac <$> base_portfolio) num_one = Val history
    ∧ update_live_weights base_portfolio frame = Val live
    ∧ net_values_file w' = Some history
    ∧ portfolio_file w' = Some live
    ∧ nv_date <$> history = (rows frame).*1
    ∧ Forall (in_window rebalance_date (clock w)) (nv_date <$> history).
Proof.
  intros Hs Hpre Hnone [[_ [e [=]]]|(rb & base & ex & Hpre' & Hrun)]%main_inv.
  destruct Hrun as [[_ ?]|(w1 & Hu & Hr)]; [done|].
  destruct Hpre as (_ & Hrb & Hbase & Hex), Hpre' as (_ & Hrb' & Hbase' & Hex').
  assert (rb = rebalance_date) as -> by congruence.
  assert (base = base_portfolio) as -> by congruence.
  assert (ex = existing_df) as -> by congruence.
  apply update_history_inv in Hu
    as (w0 & frame & seg & [(ex0 & lr & -> & Hlast & _)|(_ & _ & Hf & Hc & ->)]).
  { cbn in Hnone. congruence. }
  apply refresh_live_weights_inv in Hr as (w2 & frame2 & live & Hf2 & Hl & ->).
  pose proof (fetch_prices_frame _ _ _ _ _ _ Hf) as [[Hw0 _] _].
  pose proof (fetch_prices_frame _ _ _ _ _ _ Hf2) as [[Hw2 _] _].
  assert (Hsame : Val frame2 = Val frame).
  { eapply (refetch_same _ _ _ w); [done| |exact Hf|exact Hf2].
    rewrite Hw0. done. }
  injection Hsame as ->.
  pose proof (compute_net_values_dates _ _ _ _ Hc) as Hdates.
  exists frame, seg, live. repeat split; try done.
  - rewrite Hw2. done.
  - rewrite Hdates. by apply fetch_prices_dates in Hf as (_ & _ & ?).
Qed.

End FirstRun.

Lemma first_run_uses_one_table_witness :
  ∃ frame history live,
    compute_net_values frame [1%float] 1%float = Val history
    ∧ update_live_weights
        [BaseEntry (BaseRow "A" (Some "Alpha") 100%float (Some "core")) 1%float] frame
      = Val live
    ∧ net_values_file (main Cases.first_run).2 = Some history.
Proof.
  assert (Hr : (main Cases.first_run).1 = Val tt) by (vm_compute; reflexivity).
  destruct (main Cases.first_run) as [r w'] eqn:Hrun. cbn [fst snd] in *. subst r.
  destruct (first_run_uses_one_table Cases.first_run 20
              [BaseEntry (BaseRow "A" (Some "Alpha") 100%float (Some "core")) 1%float]
              None w')
    as (frame & history & live & Hc & Hl & Hh & _).
  - intros n t. reflexivity.
  - split; [by exists "key"|]. split; [reflexivity|]. split; [|reflexivity].
    vm_compute. reflexivity.
  - reflexivity.
  - exact Hrun.
  - exists frame, history, live. by repeat split.
Defined.
